(** * codeout: a shallow embedding of [codeout.py] and its properties

    [codeout.py] defines one class, [CodeOut], a subclass of Python's
    [io.StringIO] that keeps an indentation level, a cached indentation
    string and three position counters next to the inherited text stream.

    The embedding follows the class method by method.  An object is a record
    of its attributes; a method is a computation in a monad that threads the
    object and may raise.  A raised exception does not roll the object back:
    the state after a failing call is the state at the [raise], as in Python.
    A method that hands an object back takes the reference [self] of its
    receiver, so that [return self] is the return of that very reference.

    Conventions of the model:
    - a Python [str] is a [string], one [ascii] per character;
    - a Python [int] is a [Z];
    - [assert] statements are enabled (the interpreter's default). *)

From Stdlib Require Import ZArith String Ascii List Bool Lia DecimalString.
Import ListNotations.

Local Open Scope string_scope.
Local Open Scope Z_scope.

(** ** Python values, exceptions and string primitives *)

(** Object identity: a reference names an object. *)
Definition ref := nat.

(** The plain values that the methods receive as arguments. *)
Inductive pyval :=
| PyNone
| PyBool (b : bool)
| PyInt (z : Z)
| PyStr (s : string).

(** What a call evaluates to: a reference to an object, or a plain value. *)
Inductive returned :=
| Self (r : ref)
| Value (v : pyval).

Inductive exn :=
| AssertionError
| ValueError
| IndexError
| KeyError.

Inductive result (A : Type) :=
| Ok (a : A)
| Raise (e : exn).
Arguments Ok {A} a.
Arguments Raise {A} e.

Definition LF : ascii := "010"%char.
Definition NUL : ascii := "000"%char.
Definition TAB : ascii := "009"%char.

(** The one-character strings ['\n'] and ['\t']. *)
Definition nl : string := String LF "".
Definition tab_char : string := String TAB "".

(** [str(v)] *)
Definition py_str (v : pyval) : string :=
  match v with
  | PyNone => "None"
  | PyBool true => "True"
  | PyBool false => "False"
  | PyInt z => NilZero.string_of_int (Z.to_int z)
  | PyStr s => s
  end.

(** The truth value of a string: [not text] holds exactly for ['']. *)
Definition str_truthy (s : string) : bool :=
  match s with
  | EmptyString => false
  | String _ _ => true
  end.

Fixpoint str_rep (s : string) (n : nat) : string :=
  match n with
  | O => ""
  | S k => s ++ str_rep s k
  end.

(** [s * n]: the string repeated [n] times, empty when [n <= 0]. *)
Definition str_mul (s : string) (n : Z) : string := str_rep s (Z.to_nat n).

Fixpoint str_drop (n : nat) (s : string) : string :=
  match n, s with
  | O, _ => s
  | S k, EmptyString => ""
  | S k, String _ rest => str_drop k rest
  end.

(** Number of occurrences of ['\n']. *)
Fixpoint count_nl (s : string) : nat :=
  match s with
  | EmptyString => O
  | String c rest => if Ascii.eqb c LF then S (count_nl rest) else count_nl rest
  end.

(** Number of characters after the last ['\n'], or the whole length when the
    string has none; [acc] counts the characters seen since the last one. *)
Fixpoint tail_len_from (acc : nat) (s : string) : nat :=
  match s with
  | EmptyString => acc
  | String c rest =>
      if Ascii.eqb c LF then tail_len_from O rest else tail_len_from (S acc) rest
  end.

Definition tail_len (s : string) : nat := tail_len_from O s.

(** [s[i]] for an integer index: negative indices count from the end. *)
Definition str_index (s : string) (i : Z) : result string :=
  let n := Z.of_nat (String.length s) in
  let j := if i <? 0 then i + n else i in
  if (0 <=? j) && (j <? n) then
    match String.get (Z.to_nat j) s with
    | Some c => Ok (String c "")
    | None => Raise IndexError
    end
  else Raise IndexError.

(** ** The base class: [io.StringIO]

    The inherited stream is a text buffer with a stream position.  Writing
    puts the text at the stream position: it overwrites what is there,
    extends the buffer past its end, and fills the gap of an over-seek with
    NUL characters.  The class docstring of [CodeOut] relies on this
    ([write('12')], [seek(0)], [write('a')] gives ['a2']). *)
Module StringIO.

Record t := mk { buf : string; pos : nat }.

Definition init : t := mk "" 0.

Fixpoint overwrite (p : nat) (s b : string) : string :=
  match p with
  | O => s ++ str_drop (String.length s) b
  | S p' =>
      match b with
      | EmptyString => String NUL (overwrite p' s "")
      | String c rest => String c (overwrite p' s rest)
      end
  end.

(** [write(s)]: an empty [s] leaves the stream untouched. *)
Definition write (s : string) (io : t) : t :=
  match s with
  | EmptyString => io
  | _ => mk (overwrite (pos io) s (buf io)) (pos io + String.length s)
  end.

Definition getvalue (io : t) : string := buf io.

Definition tell (io : t) : Z := Z.of_nat (pos io).

(** [seek(p)] with the default [whence]: a negative [p] is a [ValueError]. *)
Definition seek (p : Z) (io : t) : result Z * t :=
  if p <? 0 then (Raise ValueError, io)
  else (Ok p, mk (buf io) (Z.to_nat p)).

End StringIO.

(** ** The object and the method monad *)

Record CodeOut := mkCodeOut {
  stream : StringIO.t;
  _fn : string;
  _tab : string;
  _ind : string;
  _level : Z;
  _line : Z;
  _col : Z;
  _off : Z
}.

Definition set_stream (v : StringIO.t) (o : CodeOut) : CodeOut :=
  mkCodeOut v (_fn o) (_tab o) (_ind o) (_level o) (_line o) (_col o) (_off o).
Definition set_fn (v : string) (o : CodeOut) : CodeOut :=
  mkCodeOut (stream o) v (_tab o) (_ind o) (_level o) (_line o) (_col o) (_off o).
Definition set_tab (v : string) (o : CodeOut) : CodeOut :=
  mkCodeOut (stream o) (_fn o) v (_ind o) (_level o) (_line o) (_col o) (_off o).
Definition set_ind (v : string) (o : CodeOut) : CodeOut :=
  mkCodeOut (stream o) (_fn o) (_tab o) v (_level o) (_line o) (_col o) (_off o).
Definition set_level (v : Z) (o : CodeOut) : CodeOut :=
  mkCodeOut (stream o) (_fn o) (_tab o) (_ind o) v (_line o) (_col o) (_off o).
Definition set_line (v : Z) (o : CodeOut) : CodeOut :=
  mkCodeOut (stream o) (_fn o) (_tab o) (_ind o) (_level o) v (_col o) (_off o).
Definition set_col (v : Z) (o : CodeOut) : CodeOut :=
  mkCodeOut (stream o) (_fn o) (_tab o) (_ind o) (_level o) (_line o) v (_off o).
Definition set_off (v : Z) (o : CodeOut) : CodeOut :=
  mkCodeOut (stream o) (_fn o) (_tab o) (_ind o) (_level o) (_line o) (_col o) v.

(** A method body: it reads and updates the object and either returns or
    raises; the object it leaves behind is kept in both cases. *)
Definition M (A : Type) : Type := CodeOut -> result A * CodeOut.

Definition ret {A} (a : A) : M A := fun o => (Ok a, o).

Definition raise {A} (e : exn) : M A := fun o => (Raise e, o).

Definition bind {A B} (m : M A) (k : A -> M B) : M B :=
  fun o =>
    match m o with
    | (Ok a, o') => k a o'
    | (Raise e, o') => (Raise e, o')
    end.

Notation "x <- m ;; k" := (bind m (fun x => k))
  (at level 61, m at next level, right associativity).
Notation "m ;; k" := (bind m (fun _ => k))
  (at level 61, right associativity).

(** [self.attr] *)
Definition attr {A} (f : CodeOut -> A) : M A := fun o => (Ok (f o), o).

(** [self.attr = ...] *)
Definition assign (f : CodeOut -> CodeOut) : M unit := fun o => (Ok tt, f o).

(** [assert(b)] *)
Definition py_assert (b : bool) : M unit :=
  if b then ret tt else raise AssertionError.

(** Propagate the outcome of a host computation. *)
Definition lift {A} (r : result A) : M A :=
  match r with
  | Ok a => ret a
  | Raise e => raise e
  end.

(** The outcome and the object after running a body. *)
Definition outcome {A} (m : M A) (o : CodeOut) : result A := fst (m o).
Definition after {A} (m : M A) (o : CodeOut) : CodeOut := snd (m o).

(** ** The class [CodeOut] *)

(** [fmt.format] applied to the positional and the keyword arguments is the
    host's string formatting: it yields the formatted text or raises. *)
Class Formatter :=
  str_format : string -> list pyval -> list (string * pyval) -> result string.

Section Methods.

Context {host_format : Formatter}.

(** *** Internal methods *)

Definition _update_indent (self : ref) : M unit :=
  tab <- attr _tab ;;
  level <- attr _level ;;
  assign (set_ind (str_mul tab level)).

(** *** Indentation control *)

Definition indent (self : ref) : M returned :=
  level <- attr _level ;;
  assign (set_level (level + 1)) ;;
  _update_indent self ;;
  ret (Self self).

Definition unindent (self : ref) : M returned :=
  level <- attr _level ;;
  assign (set_level (level - 1)) ;;
  level <- attr _level ;;
  py_assert (0 <=? level) ;;
  _update_indent self ;;
  ret (Self self).

Definition dedent (self : ref) : M returned := unindent self.

Definition outdent (self : ref) : M returned := unindent self.

(** *** Output methods *)

(** The body of the loop of [write], for one character. *)
Definition count_char (ch : ascii) : M unit :=
  (if Ascii.eqb ch LF then
     line <- attr _line ;;
     assign (set_line (line + 1)) ;;
     assign (set_col 0)
   else
     col <- attr _col ;;
     assign (set_col (col + 1))) ;;
  off <- attr _off ;;
  assign (set_off (off + 1)).

(** [for i, ch in enumerate(text): ...] *)
Fixpoint count_chars (text : string) : M unit :=
  match text with
  | EmptyString => ret tt
  | String ch rest => count_char ch ;; count_chars rest
  end.

(** [super().write(text)] *)
Definition super_write (text : string) : M unit :=
  io <- attr stream ;;
  assign (set_stream (StringIO.write text io)).

Definition write (self : ref) (text : string) : M returned :=
  count_chars text ;;
  super_write text ;;
  ret (Self self).

Definition format (self : ref) (fmt : string) (args : list pyval)
    (kwargs : list (string * pyval)) : M returned :=
  text <- lift (str_format fmt args kwargs) ;;
  write self text.

Definition iwrite (self : ref) (text : string) : M returned :=
  ind <- attr _ind ;;
  write self (ind ++ text).

Definition write_indented (self : ref) (text : string) : M returned :=
  iwrite self text.

(** [lwrite(text='')] *)
Definition lwrite (self : ref) (text : string) : M returned :=
  if negb (str_truthy text) then write self nl
  else iwrite self (text ++ nl).

Definition write_line (self : ref) (text : string) : M returned :=
  lwrite self text.

Definition newline (self : ref) : M returned := lwrite self "".

(** [for item in seq: self.write_line(str(item))]; the loop ends without a
    [return], so the call evaluates to [None]. *)
Fixpoint writelines_loop (self : ref) (seq : list pyval) : M unit :=
  match seq with
  | [] => ret tt
  | item :: rest => write_line self (py_str item) ;; writelines_loop self rest
  end.

Definition writelines (self : ref) (seq : list pyval) : M returned :=
  writelines_loop self seq ;;
  ret (Value PyNone).

(** *** Construction *)

(** The attributes of an object before [__init__] has run. *)
Definition blank : CodeOut := mkCodeOut StringIO.init "" "" "" 0 0 0 0.

(** [__init__(self, fn='<string>', init='', tab='\t')] *)
Definition __init__ (self : ref) (fn init tab : string) : M unit :=
  assign (set_stream StringIO.init) ;;
  assign (set_fn fn) ;;
  assign (set_tab tab) ;;
  assign (set_ind "") ;;
  assign (set_level 0) ;;
  assign (set_line 0) ;;
  assign (set_col 0) ;;
  assign (set_off 0) ;;
  if str_truthy init then write self init ;; ret tt else ret tt.

(** [CodeOut(fn, init, tab)]: the object once the constructor has run. *)
Definition new (fn init tab : string) : CodeOut :=
  after (__init__ O fn init tab) blank.

(** *** Properties *)

Definition filename : M string := attr _fn.

Definition filename_setter (value : string) : M unit := assign (set_fn value).

(** [getvalue()] *)
Definition getvalue : M string :=
  io <- attr stream ;;
  ret (StringIO.getvalue io).

Definition contents : M string := getvalue.

Definition tab : M string := attr _tab.

Definition tab_setter (self : ref) (value : string) : M unit :=
  assign (set_tab value) ;;
  _update_indent self.

Definition level : M Z := attr _level.

Definition level_setter (self : ref) (value : Z) : M unit :=
  assign (set_level value) ;;
  _update_indent self.

Definition indentation : M string := attr _ind.

Definition line : M Z := attr _line.

Definition column : M Z := attr _col.

Definition offset : M Z := attr _off.

(** *** Operator overloads *)

(** [rhs if isinstance(rhs, str) else str(rhs)] is written. *)
Definition __iconcat__ (self : ref) (rhs : pyval) : M returned :=
  write self (match rhs with
              | PyStr s => s
              | _ => py_str rhs
              end) ;;
  ret (Self self).

Definition __iadd__ (self : ref) (rhs : pyval) : M returned :=
  __iconcat__ self rhs.

Definition __str__ : M string := contents.

(** [self.contents == s]: a string is equal only to a string. *)
Definition __eq__ (s : pyval) : M bool :=
  c <- contents ;;
  ret (match s with
       | PyStr t => String.eqb c t
       | _ => false
       end).

Definition __ne__ (s : pyval) : M bool :=
  c <- contents ;;
  ret (match s with
       | PyStr t => negb (String.eqb c t)
       | _ => true
       end).

(** [self.contents[i]] for an integer index. *)
Definition __getitem__ (i : Z) : M string :=
  c <- contents ;;
  lift (str_index c i).

(** *** Inherited stream methods *)

Definition tell : M Z :=
  io <- attr stream ;;
  ret (StringIO.tell io).

Definition seek (p : Z) : M Z :=
  io <- attr stream ;;
  let (r, io') := StringIO.seek p io in
  assign (set_stream io') ;;
  lift r.

(** *** Calls on an object

    The state-changing calls a client can make: the methods and property
    setters of the class, and the inherited [seek]. *)
Inductive call :=
| c_write (text : string)
| c_iwrite (text : string)
| c_write_indented (text : string)
| c_lwrite (text : string)
| c_write_line (text : string)
| c_newline
| c_writelines (seq : list pyval)
| c_format (fmt : string) (args : list pyval) (kwargs : list (string * pyval))
| c_indent
| c_unindent
| c_dedent
| c_outdent
| c_set_filename (value : string)
| c_set_tab (value : string)
| c_set_level (value : Z)
| c_iadd (rhs : pyval)
| c_iconcat (rhs : pyval)
| c_seek (p : Z).

(** The calls that [CodeOut] defines itself, as opposed to the inherited
    ones. *)
Definition own (c : call) : bool :=
  match c with
  | c_seek _ => false
  | _ => true
  end.

Definition any (c : call) : bool := true.

(** A statement without a value evaluates to [None]. *)
Definition statement (m : M unit) : M returned := m ;; ret (Value PyNone).

Definition run (self : ref) (c : call) : M returned :=
  match c with
  | c_write text => write self text
  | c_iwrite text => iwrite self text
  | c_write_indented text => write_indented self text
  | c_lwrite text => lwrite self text
  | c_write_line text => write_line self text
  | c_newline => newline self
  | c_writelines seq => writelines self seq
  | c_format fmt args kwargs => format self fmt args kwargs
  | c_indent => indent self
  | c_unindent => unindent self
  | c_dedent => dedent self
  | c_outdent => outdent self
  | c_set_filename value => statement (filename_setter value)
  | c_set_tab value => statement (tab_setter self value)
  | c_set_level value => statement (level_setter self value)
  | c_iadd rhs => __iadd__ self rhs
  | c_iconcat rhs => __iconcat__ self rhs
  | c_seek p => p' <- seek p ;; ret (Value (PyInt p'))
  end.

(** A sequence of calls; an exception ends it. *)
Fixpoint run_all (self : ref) (cs : list call) : M unit :=
  match cs with
  | [] => ret tt
  | c :: rest => run self c ;; run_all self rest
  end.

(** The objects a client can get hold of with the calls that [allowed]
    admits: a constructed object, and the object that any such call leaves
    behind, whether the call returned or raised. *)
Inductive reachable (allowed : call -> bool) : CodeOut -> Prop :=
| reach_new (fn init tab : string) :
    reachable allowed (new fn init tab)
| reach_call (self : ref) (c : call) (o : CodeOut) :
    reachable allowed o ->
    allowed c = true ->
    reachable allowed (after (run self c) o).

(** *** The position counters, as the documentation words them

    Each ['\n'] increments the line and resets the column to 0, every
    other character increments the column, and every character increments
    the offset.  The triple is (line, column, offset). *)
Definition scan_char (ch : ascii) (lco : Z * Z * Z) : Z * Z * Z :=
  let '(l, c, o) := lco in
  if Ascii.eqb ch LF then (l + 1, 0, o + 1) else (l, c + 1, o + 1).

Fixpoint scan (text : string) (lco : Z * Z * Z) : Z * Z * Z :=
  match text with
  | EmptyString => lco
  | String ch rest => scan rest (scan_char ch lco)
  end.

Definition counters (o : CodeOut) : Z * Z * Z := (_line o, _col o, _off o).

Definition with_counters (lco : Z * Z * Z) (o : CodeOut) : CodeOut :=
  let '(l, c, f) := lco in set_off f (set_col c (set_line l o)).

(** *** State predicates *)

(** The accumulated text. *)
Definition text_of (o : CodeOut) : string := StringIO.getvalue (stream o).

(** The cached indentation string is the unit times the level. *)
Definition cache_ok (o : CodeOut) : Prop :=
  _ind o = str_mul (_tab o) (_level o).

(** The stream position is at the end of the accumulated text. *)
Definition at_end (o : CodeOut) : Prop :=
  StringIO.pos (stream o) = String.length (text_of o).

(** The counters agree with the accumulated text. *)
Definition counters_ok (o : CodeOut) : Prop :=
  _off o = Z.of_nat (String.length (text_of o)) /\
  _line o = Z.of_nat (count_nl (text_of o)) /\
  _col o = Z.of_nat (tail_len (text_of o)).

Definition synced (o : CodeOut) : Prop := at_end o /\ counters_ok o.

(** The text that a sequence of [write] calls writes in all. *)
Definition written (texts : list string) : string :=
  fold_right String.append "" texts.

End Methods.

(** ** Sample objects *)

(** A formatter for templates without replacement fields: the text is the
    template. *)
Definition literal_format : Formatter := fun fmt _ _ => Ok fmt.

(** [CodeOut()] *)
Definition fresh : CodeOut := new "<string>" "" tab_char.

(** [CodeOut(tab='  ')] *)
Definition fresh_spaces : CodeOut := new "<string>" "" "  ".

(** The formatter on templates without replacement fields and on the
    template [{}]: that one takes the [str()] of the first positional
    argument and raises [IndexError] when there is none. *)
Definition brace_format : Formatter :=
  fun fmt args _ =>
    if String.eqb fmt "{}" then
      match args with
      | [] => Raise IndexError
      | a :: _ => Ok (py_str a)
      end
    else Ok fmt.

(** ** Notions for the further properties *)

(** The same call [n] times in a row; an exception ends the row. *)
Fixpoint times (n : nat) (m : M returned) : M unit :=
  match n with
  | O => ret tt
  | S k => m ;; times k m
  end.

(** The line that [writelines] writes for one item when the cached
    indentation string is [ind]: a bare newline for an item whose [str()] is
    empty, the indented text and a newline otherwise. *)
Definition line_of (ind : string) (item : pyval) : string :=
  if str_truthy (py_str item) then ind ++ py_str item ++ nl else nl.

Definition lines_of (ind : string) (seq : list pyval) : string :=
  fold_right (fun item acc => line_of ind item ++ acc) "" seq.

(** The calls that write text, as opposed to those that control the
    indentation, set the file name or move the stream position. *)
Definition writes (c : call) : bool :=
  match c with
  | c_write _ | c_iwrite _ | c_write_indented _ | c_lwrite _ | c_write_line _
  | c_newline | c_writelines _ | c_format _ _ _ | c_iadd _ | c_iconcat _ => true
  | _ => false
  end.

(** The object with its level set to [l] and the cached indentation string
    recomputed for it. *)
Definition relevel (l : Z) (o : CodeOut) : CodeOut :=
  set_ind (str_mul (_tab o) l) (set_level l o).

(** No counter is negative, and the line and the column together do not
    exceed the offset. *)
Definition counters_sane (o : CodeOut) : Prop :=
  0 <= _line o /\ 0 <= _col o /\ _line o + _col o <= _off o.

Definition sets_filename (c : call) : bool :=
  match c with
  | c_set_filename _ => true
  | _ => false
  end.

(** Unfolds the monad in a straight-line method body. *)
Ltac run_body :=
  cbv [bind ret raise attr assign py_assert lift outcome after statement].

(** ** Strings *)

Lemma str_app_nil_r (s : string) : s ++ "" = s.
Proof.
  induction s as [|c s IH]; simpl; [reflexivity | now rewrite IH].
Qed.

Lemma str_app_assoc (s t u : string) : (s ++ t) ++ u = s ++ (t ++ u).
Proof.
  induction s as [|c s IH]; simpl; [reflexivity | now rewrite IH].
Qed.

Lemma str_length_app (s t : string) :
  String.length (s ++ t) = (String.length s + String.length t)%nat.
Proof.
  induction s as [|c s IH]; simpl; [reflexivity | now rewrite IH].
Qed.

Lemma str_drop_nil (n : nat) : str_drop n "" = "".
Proof.
  destruct n; reflexivity.
Qed.

Lemma count_nl_app (s t : string) :
  count_nl (s ++ t) = (count_nl s + count_nl t)%nat.
Proof.
  induction s as [|c s IH]; simpl; [reflexivity|].
  destruct (Ascii.eqb c LF); simpl; now rewrite IH.
Qed.

Lemma tail_len_from_app (s t : string) (acc : nat) :
  tail_len_from acc (s ++ t) = tail_len_from (tail_len_from acc s) t.
Proof.
  revert acc; induction s as [|c s IH]; intros acc; simpl; [reflexivity|].
  destruct (Ascii.eqb c LF); apply IH.
Qed.

Lemma str_mul_nonpos (s : string) (n : Z) : n <= 0 -> str_mul s n = "".
Proof.
  intros Hn. unfold str_mul.
  replace (Z.to_nat n) with O by lia. reflexivity.
Qed.

(** ** The inherited stream *)

Lemma overwrite_at_end (s b : string) :
  StringIO.overwrite (String.length b) s b = b ++ s.
Proof.
  induction b as [|c b IH]; simpl.
  - now rewrite str_drop_nil, str_app_nil_r.
  - now rewrite IH.
Qed.

Lemma stringio_write_at_end (s : string) (io : StringIO.t) :
  StringIO.pos io = String.length (StringIO.buf io) ->
  StringIO.write s io =
  StringIO.mk (StringIO.buf io ++ s) (String.length (StringIO.buf io ++ s)).
Proof.
  intros Hpos. destruct io as [b p]; simpl in *. subst p.
  destruct s as [|c s].
  - simpl. now rewrite str_app_nil_r.
  - unfold StringIO.write; simpl StringIO.pos; simpl StringIO.buf.
    now rewrite overwrite_at_end, str_length_app.
Qed.

(** ** The position counters *)

Lemma tail_len_from_no_nl (s : string) (acc : nat) :
  count_nl s = O -> tail_len_from acc s = (acc + String.length s)%nat.
Proof.
  revert acc; induction s as [|c s IH]; intros acc; simpl.
  - intros _. lia.
  - destruct (Ascii.eqb c LF); [discriminate|].
    intros H. rewrite (IH _ H). lia.
Qed.

Lemma tail_len_from_has_nl (s : string) (a b : nat) :
  count_nl s <> O -> tail_len_from a s = tail_len_from b s.
Proof.
  revert a b; induction s as [|c s IH]; intros a b; simpl.
  - intros H. now elim H.
  - destruct (Ascii.eqb c LF); [reflexivity|]. apply IH.
Qed.

(** What a scan adds up to: the line grows by the number of newlines, the
    offset by the number of characters, and the column is the number of
    characters after the last newline of the text, counted from the old
    column when the text has no newline. *)
Lemma scan_total (text : string) (l c f : Z) :
  scan text (l, c, f) =
  (l + Z.of_nat (count_nl text),
   if Nat.eqb (count_nl text) O then c + Z.of_nat (String.length text)
   else Z.of_nat (tail_len text),
   f + Z.of_nat (String.length text)).
Proof.
  revert l c f; induction text as [|ch rest IH]; intros l c f.
  - simpl. repeat f_equal; lia.
  - simpl scan. unfold scan_char. simpl count_nl. unfold tail_len. simpl tail_len_from.
    destruct (Ascii.eqb ch LF) eqn:E; rewrite IH; simpl String.length.
    + simpl Nat.eqb. f_equal; [f_equal|]; try lia.
      destruct (Nat.eqb (count_nl rest) O) eqn:E0; [|reflexivity].
      apply Nat.eqb_eq in E0. rewrite (tail_len_from_no_nl _ _ E0). lia.
    + f_equal; [f_equal|]; try lia.
      destruct (Nat.eqb (count_nl rest) O) eqn:E0; [lia|].
      apply Nat.eqb_neq in E0. unfold tail_len.
      now rewrite (tail_len_from_has_nl rest 1 0 E0).
Qed.

Lemma scan_app (s t : string) (lco : Z * Z * Z) :
  scan (s ++ t) lco = scan t (scan s lco).
Proof.
  revert lco; induction s as [|c s IH]; intros lco; simpl; [reflexivity | apply IH].
Qed.

(** ** The methods as state transformers *)

Lemma count_chars_eq (text : string) (o : CodeOut) :
  count_chars text o = (Ok tt, with_counters (scan text (counters o)) o).
Proof.
  revert o; induction text as [|ch rest IH]; intros o.
  - destruct o; reflexivity.
  - simpl count_chars. unfold bind at 1.
    assert (Hc : count_char ch o = (Ok tt, with_counters (scan_char ch (counters o)) o)).
    { unfold count_char, scan_char, counters. destruct o; simpl.
      destruct (Ascii.eqb ch LF); reflexivity. }
    rewrite Hc, IH. f_equal. simpl scan.
    destruct o; unfold counters, scan_char; simpl.
    destruct (Ascii.eqb ch LF); simpl;
      match goal with |- context [scan rest ?x] => destruct (scan rest x) as [[l' c'] f'] end;
      reflexivity.
Qed.

Lemma write_eq (self : ref) (text : string) (o : CodeOut) :
  write self text o =
  (Ok (Self self),
   set_stream (StringIO.write text (stream o))
     (with_counters (scan text (counters o)) o)).
Proof.
  unfold write, bind. rewrite count_chars_eq.
  unfold super_write. run_body.
  destruct (scan text (counters o)) as [[l c] f]. reflexivity.
Qed.

Lemma iwrite_eq (self : ref) (text : string) (o : CodeOut) :
  iwrite self text o = write self (_ind o ++ text) o.
Proof. reflexivity. Qed.

Lemma lwrite_empty (self : ref) (o : CodeOut) :
  lwrite self "" o = write self nl o.
Proof. reflexivity. Qed.

Lemma lwrite_text (self : ref) (text : string) (o : CodeOut) :
  text <> "" -> lwrite self text o = write self (_ind o ++ text ++ nl) o.
Proof.
  intros H. unfold lwrite. destruct text as [|c t]; [now elim H|]. reflexivity.
Qed.

Lemma after_write (self : ref) (text : string) (o : CodeOut) :
  after (write self text) o =
  set_stream (StringIO.write text (stream o))
    (with_counters (scan text (counters o)) o).
Proof. unfold after. now rewrite write_eq. Qed.

Lemma indent_eq (self : ref) (o : CodeOut) :
  indent self o =
  (Ok (Self self),
   set_ind (str_mul (_tab o) (_level o + 1)) (set_level (_level o + 1) o)).
Proof. reflexivity. Qed.

(** [unindent] stores the decremented level before it asserts: when the
    assertion fails the level stays decremented and the cached string is not
    recomputed. *)
Lemma unindent_eq (self : ref) (o : CodeOut) :
  unindent self o =
  if 0 <=? _level o - 1 then
    (Ok (Self self),
     set_ind (str_mul (_tab o) (_level o - 1)) (set_level (_level o - 1) o))
  else (Raise AssertionError, set_level (_level o - 1) o).
Proof.
  unfold unindent. run_body. simpl.
  destruct (0 <=? _level o - 1); reflexivity.
Qed.

Lemma tab_setter_eq (self : ref) (value : string) (o : CodeOut) :
  tab_setter self value o =
  (Ok tt, set_ind (str_mul value (_level o)) (set_tab value o)).
Proof. reflexivity. Qed.

Lemma level_setter_eq (self : ref) (value : Z) (o : CodeOut) :
  level_setter self value o =
  (Ok tt, set_ind (str_mul (_tab o) value) (set_level value o)).
Proof. reflexivity. Qed.

Lemma seek_eq (p : Z) (o : CodeOut) :
  seek p o =
  if p <? 0 then (Raise ValueError, o)
  else (Ok p, set_stream (StringIO.mk (text_of o) (Z.to_nat p)) o).
Proof.
  unfold seek, StringIO.seek, text_of, StringIO.getvalue. run_body.
  destruct o as [[b q] fn t i lv l c f]; simpl.
  destruct (p <? 0); reflexivity.
Qed.

(** The constructor either stops at the initial attributes or writes the seed
    text to them. *)
Lemma new_eq (fn init tab : string) :
  new fn init tab =
  let o := mkCodeOut StringIO.init fn tab "" 0 0 0 0 in
  if str_truthy init then after (write O init) o else o.
Proof.
  unfold new, __init__, after, blank. run_body. simpl.
  destruct (str_truthy init); [|reflexivity].
  destruct (write O init _) as [[r|e] o']; reflexivity.
Qed.

Section Invariants.

Context {host_format : Formatter}.

Variable P : CodeOut -> Prop.
Variable allowed : call -> bool.

Hypothesis P_write : forall self text o, P o -> P (after (write self text) o).
Hypothesis P_indent : forall self o, P o -> P (after (indent self) o).
Hypothesis P_unindent : forall self o, P o -> P (after (unindent self) o).
Hypothesis P_filename : forall value o, P o -> P (set_fn value o).
Hypothesis P_tab : forall self value o, P o -> P (after (tab_setter self value) o).
Hypothesis P_level : forall self value o, P o -> P (after (level_setter self value) o).
Hypothesis P_seek :
  forall p o, allowed (c_seek p) = true -> P o -> P (after (seek p) o).

Lemma P_iwrite self text o : P o -> P (after (iwrite self text) o).
Proof. intros Ho. unfold after. rewrite iwrite_eq. now apply P_write. Qed.

Lemma P_lwrite self text o : P o -> P (after (lwrite self text) o).
Proof.
  intros Ho. unfold lwrite.
  destruct (negb (str_truthy text)); [now apply P_write | now apply P_iwrite].
Qed.

Lemma P_writelines_loop self seq o :
  P o -> P (after (writelines_loop self seq) o).
Proof.
  revert o; induction seq as [|item rest IH]; intros o Ho; [exact Ho|].
  unfold after; simpl writelines_loop. unfold bind at 1.
  pose proof (P_lwrite self (py_str item) o Ho) as H1.
  unfold after, write_line in *.
  destruct (lwrite self (py_str item) o) as [[r|e] o1]; simpl in *.
  - apply IH, H1.
  - exact H1.
Qed.

Lemma P_iconcat self rhs o : P o -> P (after (__iconcat__ self rhs) o).
Proof.
  intros Ho. unfold after, __iconcat__, bind. rewrite write_eq; simpl.
  rewrite <- (after_write self). now apply P_write.
Qed.

(** A property that the primitive operations keep is kept by every call,
    whether it returns or raises. *)
Lemma preserved_by_run self c o :
  allowed c = true -> P o -> P (after (run self c) o).
Proof.
  intros Hc Ho. destruct c; simpl run.
  - now apply P_write.
  - now apply P_iwrite.
  - now apply P_iwrite.
  - now apply P_lwrite.
  - now apply P_lwrite.
  - now apply P_lwrite.
  - pose proof (P_writelines_loop self seq o Ho) as H.
    unfold after, writelines, bind in *.
    destruct (writelines_loop self seq o) as [[r|e] o1]; exact H.
  - unfold after, format, bind, lift.
    destruct (str_format fmt args kwargs) as [text|e]; simpl; [|exact Ho].
    now apply P_write.
  - now apply P_indent.
  - now apply P_unindent.
  - now apply P_unindent.
  - now apply P_unindent.
  - now apply P_filename.
  - pose proof (P_tab self value o Ho) as H. exact H.
  - pose proof (P_level self value o Ho) as H. exact H.
  - now apply P_iconcat.
  - now apply P_iconcat.
  - pose proof (P_seek p o Hc Ho) as H.
    unfold after, bind in *. rewrite seek_eq in *.
    destruct (p <? 0); exact H.
Qed.

Hypothesis P_init : forall fn tab, P (mkCodeOut StringIO.init fn tab "" 0 0 0 0).

Lemma reachable_invariant o : reachable allowed o -> P o.
Proof.
  induction 1 as [fn init tab | self c o Hr IH Hc].
  - rewrite new_eq. cbv zeta.
    destruct (str_truthy init); [apply P_write|]; apply P_init.
  - now apply preserved_by_run.
Qed.

End Invariants.

(** ** The cached indentation string *)

Lemma cache_ok_write self text o : cache_ok o -> cache_ok (after (write self text) o).
Proof.
  rewrite after_write. unfold cache_ok.
  destruct (scan text (counters o)) as [[l c] f]. exact (fun H => H).
Qed.

Lemma cache_ok_indent self o : cache_ok o -> cache_ok (after (indent self) o).
Proof. intros _. reflexivity. Qed.

Lemma cache_ok_unindent self o : cache_ok o -> cache_ok (after (unindent self) o).
Proof.
  unfold after, cache_ok. rewrite unindent_eq.
  destruct (0 <=? _level o - 1) eqn:E; simpl; [reflexivity|].
  intros H. apply Z.leb_gt in E.
  rewrite H, !str_mul_nonpos by lia. reflexivity.
Qed.

Lemma cache_ok_filename value o : cache_ok o -> cache_ok (set_fn value o).
Proof. exact (fun H => H). Qed.

Lemma cache_ok_tab self value o :
  cache_ok o -> cache_ok (after (tab_setter self value) o).
Proof. intros _. reflexivity. Qed.

Lemma cache_ok_level self value o :
  cache_ok o -> cache_ok (after (level_setter self value) o).
Proof. intros _. reflexivity. Qed.

Lemma cache_ok_seek p o : cache_ok o -> cache_ok (after (seek p) o).
Proof.
  unfold after. rewrite seek_eq. destruct (p <? 0); exact (fun H => H).
Qed.

Lemma cache_ok_run {host_format : Formatter} self c o :
  cache_ok o -> cache_ok (after (run self c) o).
Proof.
  apply (preserved_by_run cache_ok any
           cache_ok_write cache_ok_indent cache_ok_unindent
           cache_ok_filename cache_ok_tab cache_ok_level
           (fun p o' _ => cache_ok_seek p o')).
  reflexivity.
Qed.

Lemma cache_ok_reachable {host_format : Formatter} o :
  reachable any o -> cache_ok o.
Proof.
  apply (reachable_invariant cache_ok any
           cache_ok_write cache_ok_indent cache_ok_unindent
           cache_ok_filename cache_ok_tab cache_ok_level
           (fun p o' _ => cache_ok_seek p o')).
  intros fn tab. reflexivity.
Qed.

(** ** The counters and the accumulated text *)

Lemma text_after_write self text o :
  at_end o ->
  text_of (after (write self text) o) = text_of o ++ text /\
  at_end (after (write self text) o).
Proof.
  intros He. rewrite after_write.
  destruct (scan text (counters o)) as [[l c] f].
  unfold at_end, text_of, StringIO.getvalue in *. simpl.
  rewrite (stringio_write_at_end _ _ He). simpl. split; reflexivity.
Qed.

Lemma counters_after_write self text o :
  counters (after (write self text) o) = scan text (counters o).
Proof.
  rewrite after_write. destruct (scan text (counters o)) as [[l c] f]. reflexivity.
Qed.

Lemma synced_write self text o : synced o -> synced (after (write self text) o).
Proof.
  intros [He (Hf & Hl & Hc)].
  destruct (text_after_write self text o He) as [Ht He'].
  split; [exact He'|].
  pose proof (counters_after_write self text o) as Hs.
  unfold counters in Hs. rewrite scan_total in Hs.
  injection Hs as Hl' Hc' Hf'.
  unfold counters_ok. rewrite Ht, Hl', Hc', Hf', Hf, Hl, Hc.
  rewrite str_length_app, count_nl_app. unfold tail_len at 3.
  rewrite tail_len_from_app. fold (tail_len (text_of o)).
  repeat split; try lia.
  destruct (Nat.eqb (count_nl text) O) eqn:E.
  - apply Nat.eqb_eq in E. rewrite (tail_len_from_no_nl _ _ E). lia.
  - apply Nat.eqb_neq in E. f_equal. symmetry.
    unfold tail_len. apply (tail_len_from_has_nl text _ _ E).
Qed.

Lemma synced_unindent self o : synced o -> synced (after (unindent self) o).
Proof.
  unfold after. rewrite unindent_eq.
  destruct (0 <=? _level o - 1); exact (fun H => H).
Qed.

Lemma synced_reachable {host_format : Formatter} o :
  reachable own o -> synced o.
Proof.
  apply (reachable_invariant synced own).
  - exact synced_write.
  - intros self o' H; exact H.
  - exact synced_unindent.
  - intros value o' H; exact H.
  - intros self value o' H; exact H.
  - intros self value o' H; exact H.
  - intros p o' Hp; discriminate Hp.
  - intros fn tab. repeat split.
Qed.

Lemma tail_len_after_nl (s t : string) :
  count_nl t = O -> tail_len (s ++ nl ++ t) = String.length t.
Proof.
  intros Ht. unfold tail_len. rewrite tail_len_from_app. simpl.
  now rewrite (tail_len_from_no_nl _ _ Ht).
Qed.

(** ** Sequences of calls *)

Lemma writelines_loop_ok (self : ref) (seq : list pyval) (o : CodeOut) :
  outcome (writelines_loop self seq) o = Ok tt.
Proof.
  revert o; induction seq as [|item rest IH]; intros o; [reflexivity|].
  unfold outcome in *. simpl writelines_loop. unfold bind at 1.
  unfold write_line, lwrite.
  destruct (negb (str_truthy (py_str item)));
    [|rewrite iwrite_eq]; rewrite write_eq; apply IH.
Qed.

Lemma run_all_cons {host_format : Formatter} (self : ref) (c : call)
    (rest : list call) (o : CodeOut) :
  run_all self (c :: rest) o =
  match run self c o with
  | (Ok _, o') => run_all self rest o'
  | (Raise e, o') => (Raise e, o')
  end.
Proof. reflexivity. Qed.

Lemma run_all_writes {host_format : Formatter} (self : ref)
    (texts : list string) (o : CodeOut) :
  outcome (run_all self (map c_write texts)) o = Ok tt /\
  counters (after (run_all self (map c_write texts)) o) =
    scan (written texts) (counters o) /\
  (at_end o ->
   text_of (after (run_all self (map c_write texts)) o) =
     text_of o ++ written texts).
Proof.
  revert o; induction texts as [|text rest IH]; intros o.
  - simpl. repeat split. intros _. now rewrite str_app_nil_r.
  - unfold outcome, after in *. simpl map.
    rewrite run_all_cons. simpl run. rewrite write_eq, <- (after_write self).
    destruct (IH (after (write self text) o)) as (H1 & H2 & H3).
    split; [exact H1|]. split.
    + rewrite H2, counters_after_write. simpl written. now rewrite scan_app.
    + intros He. destruct (text_after_write self text o He) as [Ht He'].
      rewrite (H3 He'), Ht. simpl written. apply str_app_assoc.
Qed.

(** ** The claims *)

Section Claims.

Context {host_format : Formatter}.

(** Claim C1.  [unindent()] and its aliases [dedent()] and [outdent()],
    called on an object whose level is 0, raise [AssertionError]; and on
    any object whatsoever, a call of one of them that returns leaves a
    level that is not negative. *)
Theorem unindent_contract (self : ref) (o : CodeOut) :
  (_level o = 0 ->
   outcome (unindent self) o = Raise AssertionError /\
   outcome (dedent self) o = Raise AssertionError /\
   outcome (outdent self) o = Raise AssertionError) /\
  (forall r, outcome (unindent self) o = Ok r ->
             0 <= _level (after (unindent self) o)) /\
  (forall r, outcome (dedent self) o = Ok r ->
             0 <= _level (after (dedent self) o)) /\
  (forall r, outcome (outdent self) o = Ok r ->
             0 <= _level (after (outdent self) o)).
Proof.
  unfold dedent, outdent, outcome, after. rewrite unindent_eq.
  split.
  - intros H0. rewrite H0. simpl. repeat split.
  - destruct (0 <=? _level o - 1) eqn:E; simpl.
    + apply Z.leb_le in E. repeat split; intros r _; exact E.
    + repeat split; intros r H; discriminate H.
Qed.

(** Claim C2, as the code has it.  The [level] setter has no guard: a
    negative value is stored without any exception, and the cached
    indentation string becomes empty. *)
Theorem level_setter_unguarded (self : ref) (o : CodeOut) (value : Z) :
  value < 0 ->
  outcome (level_setter self value) o = Ok tt /\
  _level (after (level_setter self value) o) = value /\
  _ind (after (level_setter self value) o) = "".
Proof.
  intros Hv. unfold outcome, after. rewrite level_setter_eq. simpl.
  repeat split. apply str_mul_nonpos. lia.
Qed.

(** Claim C3, amended.  [write], [iwrite], [write_indented], [lwrite],
    [write_line], [newline] and [indent] return the object itself;
    [format] returns it when the formatting succeeds and raises what the
    formatting raises otherwise; [unindent], [dedent] and [outdent] return
    it when the level is at least 1 and raise [AssertionError] otherwise;
    the in-place operators return it; [writelines] returns [None]. *)
Theorem chaining_returns (self : ref) (o : CodeOut) :
  (forall text, outcome (write self text) o = Ok (Self self)) /\
  (forall text, outcome (iwrite self text) o = Ok (Self self)) /\
  (forall text, outcome (write_indented self text) o = Ok (Self self)) /\
  (forall text, outcome (lwrite self text) o = Ok (Self self)) /\
  (forall text, outcome (write_line self text) o = Ok (Self self)) /\
  outcome (newline self) o = Ok (Self self) /\
  (forall fmt args kwargs,
     outcome (format self fmt args kwargs) o =
     match str_format fmt args kwargs with
     | Ok _ => Ok (Self self)
     | Raise e => Raise e
     end) /\
  outcome (indent self) o = Ok (Self self) /\
  outcome (unindent self) o =
    (if 1 <=? _level o then Ok (Self self) else Raise AssertionError) /\
  outcome (dedent self) o =
    (if 1 <=? _level o then Ok (Self self) else Raise AssertionError) /\
  outcome (outdent self) o =
    (if 1 <=? _level o then Ok (Self self) else Raise AssertionError) /\
  (forall rhs, outcome (__iadd__ self rhs) o = Ok (Self self)) /\
  (forall rhs, outcome (__iconcat__ self rhs) o = Ok (Self self)) /\
  (forall seq, outcome (writelines self seq) o = Ok (Value PyNone)).
Proof.
  assert (Hw : forall text, outcome (write self text) o = Ok (Self self)).
  { intros text. unfold outcome. now rewrite write_eq. }
  assert (Hi : forall text, outcome (iwrite self text) o = Ok (Self self)).
  { intros text. unfold outcome. rewrite iwrite_eq. apply Hw. }
  assert (Hl : forall text, outcome (lwrite self text) o = Ok (Self self)).
  { intros text. unfold lwrite.
    destruct (negb (str_truthy text)); [apply Hw | apply Hi]. }
  assert (Hu : outcome (unindent self) o =
               if 1 <=? _level o then Ok (Self self) else Raise AssertionError).
  { unfold outcome. rewrite unindent_eq.
    destruct (0 <=? _level o - 1) eqn:E; destruct (1 <=? _level o) eqn:E';
      try reflexivity; exfalso;
      [apply Z.leb_le in E; apply Z.leb_gt in E'
      |apply Z.leb_gt in E; apply Z.leb_le in E']; lia. }
  assert (Hc : forall rhs, outcome (__iconcat__ self rhs) o = Ok (Self self)).
  { intros rhs. unfold outcome, __iconcat__, bind. now rewrite write_eq. }
  repeat split; try assumption; try exact (Hl "").
  - intros fmt args kwargs. unfold outcome, format, bind, lift.
    destruct (str_format fmt args kwargs) as [text|e]; simpl; [|reflexivity].
    apply Hw.
  - intros seq. pose proof (writelines_loop_ok self seq o) as H.
    unfold outcome, writelines, bind in *.
    destruct (writelines_loop self seq o) as [[[]|e] o1]; simpl in *;
      [reflexivity | discriminate H].
Qed.

(** Claim C4, amended.  [write(text)] returns the object and updates the
    counters by a scan of [text], one character at a time: a newline
    increments the line and resets the column, any other character
    increments the column, every character increments the offset.  So the
    offset grows by the length of [text], the line by its number of
    newlines, and over a sequence of writes by those of all the text
    written; from a fresh object the offset is the number of characters
    written.  The accumulated text grows by exactly [text] when the stream
    position is at its end, and then the position is at the end again. *)
Theorem write_scans_and_appends (self : ref) (text : string)
    (texts : list string) (fn tab0 : string) (o : CodeOut) :
  (outcome (write self text) o = Ok (Self self) /\
   counters (after (write self text) o) = scan text (counters o) /\
   _off (after (write self text) o) = _off o + Z.of_nat (String.length text) /\
   _line (after (write self text) o) = _line o + Z.of_nat (count_nl text) /\
   (at_end o ->
    text_of (after (write self text) o) = text_of o ++ text /\
    at_end (after (write self text) o))) /\
  (outcome (run_all self (map c_write texts)) o = Ok tt /\
   _off (after (run_all self (map c_write texts)) o) =
     _off o + Z.of_nat (String.length (written texts)) /\
   _line (after (run_all self (map c_write texts)) o) =
     _line o + Z.of_nat (count_nl (written texts)) /\
   (at_end o ->
    text_of (after (run_all self (map c_write texts)) o) =
      text_of o ++ written texts)) /\
  _off (after (run_all self (map c_write texts)) (new fn "" tab0)) =
    Z.of_nat (String.length (written texts)).
Proof.
  assert (Hs : forall t o1 o2,
             counters o2 = scan t (counters o1) ->
             _off o2 = _off o1 + Z.of_nat (String.length t) /\
             _line o2 = _line o1 + Z.of_nat (count_nl t)).
  { intros t o1 o2 H. unfold counters in H. rewrite scan_total in H.
    injection H as Hl _ Hf. now split. }
  split; [|split].
  - pose proof (counters_after_write self text o) as Hc.
    destruct (Hs _ _ _ Hc) as [Hf Hl].
    repeat split; try assumption.
    + unfold outcome. now rewrite write_eq.
    + now apply text_after_write.
    + now apply text_after_write.
  - destruct (run_all_writes self texts o) as (H1 & H2 & H3).
    destruct (Hs _ _ _ H2) as [Hf Hl]. repeat split; assumption.
  - destruct (run_all_writes self texts (new fn "" tab0)) as (_ & H2 & _).
    destruct (Hs _ _ _ H2) as [Hf _]. rewrite Hf. reflexivity.
Qed.

(** Claim C5.  On every reachable object, whatever its level,
    [lwrite()] with an empty text (and so [newline()]) is the write of the
    single character ['\n'], with no indentation; [lwrite(text)] with a
    text that is not empty is the write of the unit times the level, then
    [text], then ['\n'].  With the stream position at the end, as it is
    unless an inherited [seek] moved it, these are appended to the
    accumulated text; at level 2 with a unit of two spaces, [lwrite("x")]
    appends four spaces, [x] and a newline. *)
Theorem lwrite_line (self : ref) (text : string) (o : CodeOut) :
  reachable any o ->
  lwrite self "" o = write self nl o /\
  newline self o = write self nl o /\
  (at_end o -> text_of (after (lwrite self "") o) = text_of o ++ nl) /\
  (text <> "" ->
   lwrite self text o =
     write self (str_mul (_tab o) (_level o) ++ text ++ nl) o /\
   write_line self text o = lwrite self text o /\
   (at_end o ->
    text_of (after (lwrite self text) o) =
      text_of o ++ str_mul (_tab o) (_level o) ++ text ++ nl)) /\
  (_level o = 2 -> _tab o = "  " -> at_end o ->
   text_of (after (lwrite self "x") o) = text_of o ++ "    x" ++ nl).
Proof.
  intros Hr. pose proof (cache_ok_reachable o Hr) as Hc. unfold cache_ok in Hc.
  assert (Ht : forall t, t <> "" -> at_end o ->
               text_of (after (lwrite self t) o) =
                 text_of o ++ str_mul (_tab o) (_level o) ++ t ++ nl).
  { intros t Hne He. unfold after. rewrite (lwrite_text self t o Hne), Hc.
    apply (text_after_write self _ o He). }
  split; [reflexivity|]. split; [reflexivity|]. split; [|split].
  - intros He. unfold after. rewrite lwrite_empty.
    apply (text_after_write self nl o He).
  - intros Hne. split; [|split].
    + rewrite (lwrite_text self text o Hne), Hc. reflexivity.
    + reflexivity.
    + now apply Ht.
  - intros Hl Hu He. rewrite Ht by (discriminate || assumption).
    rewrite Hl, Hu. reflexivity.
Qed.

(** Claim C6.  On [CodeOut(tab='  ')], the calls [lwrite('<foo>')],
    [indent()], [lwrite('<bar/>')], [unindent()], [lwrite('</foo>')] all
    return; afterwards [contents] is the three lines [<foo>], [  <bar/>]
    and [</foo>], each ended by a newline, and [line], [column] and
    [offset] are 3, 0 and 22. *)
Theorem xml_scenario :
  let calls :=
    lwrite O "<foo>" ;; indent O ;; lwrite O "<bar/>" ;; unindent O ;;
    lwrite O "</foo>" in
  outcome calls fresh_spaces = Ok (Self O) /\
  outcome contents (after calls fresh_spaces) =
    Ok ("<foo>" ++ nl ++ "  <bar/>" ++ nl ++ "</foo>" ++ nl) /\
  outcome line (after calls fresh_spaces) = Ok 3 /\
  outcome column (after calls fresh_spaces) = Ok 0 /\
  outcome offset (after calls fresh_spaces) = Ok 22.
Proof.
  cbv zeta. repeat split; vm_compute; reflexivity.
Qed.

(** Claim C7, amended.  On every reachable object whose level is not
    negative, [indent()] followed at once by [unindent()] leaves the level
    and the cached indentation string as they were, and the [unindent()]
    of the pair returns. *)
Theorem indent_unindent_round_trip (self : ref) (o : CodeOut) :
  reachable any o ->
  0 <= _level o ->
  outcome (unindent self) (after (indent self) o) = Ok (Self self) /\
  outcome (indent self ;; unindent self) o = Ok (Self self) /\
  _level (after (indent self ;; unindent self) o) = _level o /\
  _ind (after (indent self ;; unindent self) o) = _ind o.
Proof.
  intros Hr Hl. pose proof (cache_ok_reachable o Hr) as Hc. unfold cache_ok in Hc.
  unfold outcome, after, bind. rewrite indent_eq. simpl.
  rewrite !unindent_eq. simpl.
  replace (_level o + 1 - 1) with (_level o) by lia.
  destruct (0 <=? _level o) eqn:E; [|apply Z.leb_gt in E; lia].
  simpl. repeat split. now rewrite Hc.
Qed.

(** Claim C8.  [==] against a string is true exactly when the string is
    [contents], and [!=] is its negation; [+=] is [write] of the right-hand
    side when that is a string and of its [str()] otherwise, and returns
    the object; with the stream position at the end this appends to
    [contents]; [str()] of the object is [contents].  After [+= 'a'] and
    [+= 'b'] on [CodeOut()], the object [== 'ab'] and its [str()] is
    ['ab']. *)
Theorem operator_overloads (self : ref) (rhs : pyval) (s : string)
    (o : CodeOut) :
  outcome contents o = Ok (text_of o) /\
  outcome (__eq__ (PyStr s)) o = Ok (String.eqb (text_of o) s) /\
  (outcome (__eq__ (PyStr s)) o = Ok true <-> text_of o = s) /\
  outcome (__ne__ (PyStr s)) o = Ok (negb (String.eqb (text_of o) s)) /\
  __iadd__ self rhs o = write self (py_str rhs) o /\
  __iconcat__ self rhs o = write self (py_str rhs) o /\
  __iadd__ self (PyStr s) o = write self s o /\
  (at_end o ->
   text_of (after (__iadd__ self rhs) o) = text_of o ++ py_str rhs) /\
  outcome __str__ o = Ok (text_of o) /\
  (let o2 := after (__iadd__ O (PyStr "a") ;; __iadd__ O (PyStr "b")) fresh in
   outcome (__eq__ (PyStr "ab")) o2 = Ok true /\
   outcome (__ne__ (PyStr "ab")) o2 = Ok false /\
   outcome __str__ o2 = Ok "ab").
Proof.
  assert (Hi : __iconcat__ self rhs o = write self (py_str rhs) o).
  { unfold __iconcat__, bind. destruct rhs; simpl; now rewrite !write_eq. }
  repeat split; try reflexivity; try exact Hi.
  - intros H. unfold outcome, __eq__, bind in H. simpl in H.
    injection H as H. now apply String.eqb_eq.
  - intros H. unfold outcome, __eq__, bind. simpl.
    f_equal. now apply String.eqb_eq.
  - unfold __iadd__, __iconcat__, bind. now rewrite !write_eq.
  - intros He. unfold __iadd__, after. rewrite Hi.
    apply (text_after_write self _ o He).
Qed.

(** Claim C9.  The cached indentation string is the unit times the level
    on a constructed object, and every call keeps it so, whether the call
    returns or raises: the methods that write, [indent], [unindent] and
    its aliases, the setters of [filename], [tab] and [level], the in-place
    operators and the inherited [seek].  The [tab] setter stores the new
    unit, recomputes the cached string for the unchanged level, and leaves
    the accumulated text as it was. *)
Theorem indentation_cache (self : ref) (c : call) (value : string)
    (fn init tab0 : string) (o : CodeOut) :
  cache_ok (new fn init tab0) /\
  (cache_ok o -> cache_ok (after (run self c) o)) /\
  outcome (tab_setter self value) o = Ok tt /\
  _tab (after (tab_setter self value) o) = value /\
  _level (after (tab_setter self value) o) = _level o /\
  _ind (after (tab_setter self value) o) = str_mul value (_level o) /\
  text_of (after (tab_setter self value) o) = text_of o.
Proof.
  split; [|split; [apply cache_ok_run | repeat split]].
  apply cache_ok_reachable, reach_new.
Qed.

(** Claim C10.  On every object that is constructed, with or without a
    seed text, and then used through the calls the class defines itself
    (no inherited [seek]), the offset is the length of [contents], the line
    is the number of newlines in [contents], and the column is the number
    of characters after the last newline of [contents], or the length of
    [contents] when it has no newline. *)
Theorem counters_track_contents (o : CodeOut) :
  reachable own o ->
  _off o = Z.of_nat (String.length (text_of o)) /\
  _line o = Z.of_nat (count_nl (text_of o)) /\
  _col o = Z.of_nat (tail_len (text_of o)) /\
  (count_nl (text_of o) = O -> _col o = Z.of_nat (String.length (text_of o))) /\
  (forall s t, text_of o = s ++ nl ++ t -> count_nl t = O ->
               _col o = Z.of_nat (String.length t)).
Proof.
  intros Hr. destruct (synced_reachable o Hr) as [_ (Hf & Hl & Hc)].
  repeat split; try assumption.
  - intros H0. rewrite Hc. unfold tail_len.
    now rewrite (tail_len_from_no_nl _ _ H0).
  - intros s t Hst Ht. rewrite Hc, Hst. now rewrite tail_len_after_nl.
Qed.

End Claims.

(** ** The claims at concrete objects *)

(** [CodeOut()] is at level 0, where [unindent()] raises; one [indent()]
    later it returns and the level is 0 again. *)
Lemma unindent_contract_witness :
  _level fresh = 0 /\
  outcome (unindent O) fresh = Raise AssertionError /\
  outcome (dedent O) fresh = Raise AssertionError /\
  outcome (outdent O) fresh = Raise AssertionError /\
  outcome (unindent O) (after (indent O) fresh) = Ok (Self O) /\
  0 <= _level (after (unindent O) (after (indent O) fresh)).
Proof.
  destruct (unindent_contract O fresh) as [H0 _].
  destruct (unindent_contract O (after (indent O) fresh)) as [_ [H1 _]].
  split; [reflexivity|].
  destruct (H0 eq_refl) as (Hu & Hd & Ho).
  repeat split; try assumption.
  apply (H1 (Self O)). reflexivity.
Defined.

(** [co = CodeOut(); co.level = -1] goes through. *)
Lemma level_setter_unguarded_witness :
  -1 < 0 /\
  outcome (level_setter O (-1)) fresh = Ok tt /\
  _level (after (level_setter O (-1)) fresh) = -1 /\
  _ind (after (level_setter O (-1)) fresh) = "".
Proof.
  split; [reflexivity|].
  apply (level_setter_unguarded O fresh (-1)). reflexivity.
Defined.

(** [writelines] does not return the object: a chained call has nothing to
    be called on. *)
Lemma writelines_returns_none :
  outcome (writelines O [PyStr "a"; PyStr "b"; PyStr "c"]) fresh <> Ok (Self O).
Proof.
  vm_compute. discriminate.
Qed.

(** The last example of the class docstring: after [write('12')] and
    [seek(0)], [write('a')] replaces the first character and the text is
    ['a2'], of the same length as before. *)
Lemma write_after_seek_overwrites :
  let o := after (seek 0) (after (write O "12") fresh) in
  text_of o = "12" /\
  text_of (after (write O "a") o) = "a2" /\
  text_of (after (write O "a") o) <> text_of o ++ "a".
Proof.
  cbv zeta. repeat split. vm_compute. discriminate.
Qed.

Lemma write_scans_and_appends_witness :
  at_end fresh /\
  text_of (after (write O ("a" ++ nl ++ "b")) fresh) = "a" ++ nl ++ "b" /\
  counters (after (write O ("a" ++ nl ++ "b")) fresh) = (1, 1, 3) /\
  text_of (after (run_all (host_format := literal_format) O
                    (map c_write ["a"; nl; "b"])) fresh) = "a" ++ nl ++ "b".
Proof.
  destruct (write_scans_and_appends (host_format := literal_format)
              O ("a" ++ nl ++ "b") ["a"; nl; "b"] "<string>" tab_char fresh)
    as ((_ & Hc & _ & _ & Ht) & (_ & _ & _ & Hs) & _).
  split; [reflexivity|].
  destruct (Ht eq_refl) as [Ht' _].
  split; [exact Ht'|]. split; [exact Hc|]. exact (Hs eq_refl).
Defined.

(** The object after [CodeOut(tab='  ').indent().indent()]. *)
Lemma lwrite_line_witness :
  let o := after (run (host_format := literal_format) O c_indent)
             (after (run (host_format := literal_format) O c_indent) fresh_spaces) in
  reachable (host_format := literal_format) any o /\
  _level o = 2 /\ _tab o = "  " /\ at_end o /\ "x" <> "" /\
  lwrite O "x" o = write O ("    x" ++ nl) o /\
  text_of (after (lwrite O "x") o) = "    x" ++ nl /\
  text_of (after (lwrite O "") o) = nl.
Proof.
  cbv zeta.
  assert (Hr : reachable (host_format := literal_format) any
                 (after (run (host_format := literal_format) O c_indent)
                    (after (run (host_format := literal_format) O c_indent) fresh_spaces))).
  { apply reach_call; [apply reach_call; [apply reach_new|]|]; reflexivity. }
  assert (Hx : "x" <> "") by discriminate.
  destruct (lwrite_line (host_format := literal_format) O "x" _ Hr)
    as (_ & _ & He & Ht & Hx2).
  destruct (Ht Hx) as (Hw & _ & _).
  split; [exact Hr|]. do 3 (split; [reflexivity|]). split; [exact Hx|].
  split; [exact Hw|]. split.
  - exact (Hx2 eq_refl eq_refl eq_refl).
  - exact (He eq_refl).
Defined.

(** At level -1, which the [level] setter admits, the [unindent()] that
    follows an [indent()] raises. *)
Lemma indent_unindent_below_zero :
  let o := after (run (host_format := literal_format) O (c_set_level (-1))) fresh in
  reachable (host_format := literal_format) any o /\
  outcome (unindent O) (after (indent O) o) = Raise AssertionError /\
  outcome (indent O ;; unindent O) o <> Ok (Self O).
Proof.
  cbv zeta. split; [|split].
  - apply reach_call; [apply reach_new | reflexivity].
  - reflexivity.
  - vm_compute. discriminate.
Qed.

Lemma indent_unindent_round_trip_witness :
  let o := after (run (host_format := literal_format) O c_indent) fresh_spaces in
  reachable (host_format := literal_format) any o /\
  0 <= _level o /\
  outcome (unindent O) (after (indent O) o) = Ok (Self O) /\
  _level (after (indent O ;; unindent O) o) = 1 /\
  _ind (after (indent O ;; unindent O) o) = "  ".
Proof.
  cbv zeta.
  assert (Hr : reachable (host_format := literal_format) any
                 (after (run (host_format := literal_format) O c_indent) fresh_spaces)).
  { apply reach_call; [apply reach_new | reflexivity]. }
  assert (Hl : 0 <= _level (after (run (host_format := literal_format) O c_indent) fresh_spaces)).
  { discriminate. }
  destruct (indent_unindent_round_trip (host_format := literal_format) O _ Hr Hl)
    as (Hu & _ & Hlv & Hi).
  split; [exact Hr|]. split; [exact Hl|]. split; [exact Hu|].
  split; [exact Hlv | exact Hi].
Defined.

Lemma operator_overloads_witness :
  at_end fresh /\
  text_of (after (__iadd__ O (PyInt 42)) fresh) = "42" /\
  outcome (__eq__ (PyStr "42")) (after (__iadd__ O (PyInt 42)) fresh) = Ok true.
Proof.
  destruct (operator_overloads O (PyInt 42) "" fresh)
    as (_ & _ & _ & _ & _ & _ & _ & Ha & _).
  destruct (operator_overloads O PyNone "42" (after (__iadd__ O (PyInt 42)) fresh))
    as (_ & _ & [_ He] & _).
  split; [reflexivity|]. split.
  - exact (Ha eq_refl).
  - apply He. exact (Ha eq_refl).
Defined.

(** The cache is kept by an [unindent()] that raises. *)
Lemma indentation_cache_witness :
  cache_ok fresh_spaces /\
  outcome (run (host_format := literal_format) O c_unindent) fresh_spaces =
    Raise AssertionError /\
  cache_ok (after (run (host_format := literal_format) O c_unindent) fresh_spaces).
Proof.
  destruct (indentation_cache (host_format := literal_format)
              O c_unindent "" "<string>" "" "  " fresh_spaces) as (H0 & H1 & _).
  split; [exact H0|]. split; [reflexivity|]. exact (H1 H0).
Defined.

(** [CodeOut(init='x').lwrite('ab')] *)
Lemma counters_track_contents_witness :
  let o := after (run (host_format := literal_format) O (c_lwrite "ab"))
             (new "<string>" "x" tab_char) in
  reachable (host_format := literal_format) own o /\
  text_of o = "xab" ++ nl /\
  counters o = (1, 0, 4).
Proof.
  cbv zeta.
  assert (Hr : reachable (host_format := literal_format) own
                 (after (run (host_format := literal_format) O (c_lwrite "ab"))
                    (new "<string>" "x" tab_char))).
  { apply reach_call; [apply reach_new | reflexivity]. }
  destruct (counters_track_contents (host_format := literal_format) _ Hr)
    as (Hf & Hl & Hc & _).
  split; [exact Hr|]. split; [reflexivity|].
  unfold counters. rewrite Hf, Hl, Hc. reflexivity.
Defined.

(** ** Further properties: how writes compose *)

Lemma str_drop_add (m n : nat) (b : string) :
  str_drop n (str_drop m b) = str_drop (m + n) b.
Proof.
  revert b; induction m as [|m IH]; intros b; simpl; [reflexivity|].
  destruct b as [|c b]; [apply str_drop_nil | apply IH].
Qed.

Lemma overwrite_past (s t r : string) :
  StringIO.overwrite (String.length s) t (s ++ r) = s ++ StringIO.overwrite 0 t r.
Proof.
  induction s as [|c s IH]; simpl; [reflexivity | now rewrite IH].
Qed.

Lemma overwrite_compose (p : nat) (s t b : string) :
  StringIO.overwrite (p + String.length s) t (StringIO.overwrite p s b) =
  StringIO.overwrite p (s ++ t) b.
Proof.
  revert b; induction p as [|p IH]; intros b.
  - simpl. rewrite overwrite_past. simpl.
    now rewrite str_app_assoc, str_drop_add, str_length_app.
  - simpl. destruct b as [|c b]; now rewrite IH.
Qed.

Lemma stringio_write_compose (s t : string) (io : StringIO.t) :
  StringIO.write t (StringIO.write s io) = StringIO.write (s ++ t) io.
Proof.
  destruct s as [|a s]; [reflexivity|].
  destruct t as [|b t]; [now rewrite str_app_nil_r|].
  unfold StringIO.write at 2. unfold StringIO.write at 1.
  cbn [StringIO.pos StringIO.buf].
  rewrite overwrite_compose.
  change (String a s ++ String b t) with (String a (s ++ String b t)).
  unfold StringIO.write. f_equal.
  change (String a (s ++ String b t)) with (String a s ++ String b t).
  rewrite str_length_app. lia.
Qed.

Lemma write_then_write (self : ref) (s t : string) (o : CodeOut) :
  (write self s ;; write self t) o = write self (s ++ t) o.
Proof.
  unfold bind. rewrite !write_eq. f_equal.
  rewrite scan_app.
  destruct (scan s (counters o)) as [[l c] f] eqn:E.
  assert (Hc : counters (set_stream (StringIO.write s (stream o))
                           (with_counters (l, c, f) o)) = (l, c, f))
    by reflexivity.
  rewrite Hc. destruct (scan t (l, c, f)) as [[l' c'] f'].
  unfold with_counters. simpl. unfold set_stream; simpl.
  now rewrite stringio_write_compose.
Qed.

Lemma write_nothing (self : ref) (o : CodeOut) :
  write self "" o = (Ok (Self self), o).
Proof. rewrite write_eq. destruct o as [[b p] fn t i lv l c f]. reflexivity. Qed.

Lemma ind_after_write (self : ref) (text : string) (o : CodeOut) :
  _ind (after (write self text) o) = _ind o.
Proof.
  rewrite after_write. destruct (scan text (counters o)) as [[l c] f]. reflexivity.
Qed.

Lemma writelines_loop_eq (self : ref) (seq : list pyval) (o : CodeOut) :
  writelines_loop self seq o =
  (Ok tt, after (write self (lines_of (_ind o) seq)) o).
Proof.
  revert o; induction seq as [|item rest IH]; intros o.
  - simpl. unfold after. now rewrite write_nothing.
  - simpl writelines_loop. unfold bind at 1.
    assert (Hl : write_line self (py_str item) o =
                 write self (line_of (_ind o) item) o).
    { unfold write_line, lwrite, line_of.
      destruct (str_truthy (py_str item)); reflexivity. }
    rewrite Hl, write_eq, <- (after_write self), IH, ind_after_write.
    f_equal. simpl lines_of.
    unfold after at 3. rewrite <- (write_then_write self).
    unfold bind. rewrite write_eq, <- (after_write self). reflexivity.
Qed.

Lemma lwrite_as_write (self : ref) (text : string) (o : CodeOut) :
  lwrite self text o =
  write self ((if str_truthy text then _ind o ++ text else "") ++ nl) o.
Proof.
  unfold lwrite, iwrite, bind, attr.
  destruct (str_truthy text); simpl negb; cbv iota; [|reflexivity].
  now rewrite str_app_assoc.
Qed.

Lemma counters_after_line (self : ref) (x : string) (o : CodeOut) :
  counters (after (write self (x ++ nl)) o) =
  (_line o + Z.of_nat (count_nl x) + 1, 0,
   _off o + Z.of_nat (String.length x) + 1).
Proof.
  rewrite counters_after_write, scan_app. unfold counters.
  rewrite scan_total. reflexivity.
Qed.

Section Extras.

Context {host_format : Formatter}.

(** X1.  Two writes in a row are one write of the concatenation, whatever
    the stream position, and a write of the empty string changes nothing. *)
Theorem write_composes (self : ref) (s t : string) (o : CodeOut) :
  (write self s ;; write self t) o = write self (s ++ t) o /\
  write self "" o = (Ok (Self self), o).
Proof.
  split; [apply write_then_write | apply write_nothing].
Qed.

(** X2.  [iwrite(text)] is the write of the cached indentation string
    followed by the write of [text]; with an empty [text] it still writes
    the indentation.  [lwrite(text)] with a text that is not empty is
    [iwrite(text)] followed by the write of a newline. *)
Theorem indented_writes_decompose (self : ref) (text : string) (o : CodeOut) :
  iwrite self text o = (write self (_ind o) ;; write self text) o /\
  write_indented self text o = (write self (_ind o) ;; write self text) o /\
  iwrite self "" o = write self (_ind o) o /\
  (text <> "" ->
   lwrite self text o = (iwrite self text ;; write self nl) o /\
   write_line self text o = (iwrite self text ;; write self nl) o).
Proof.
  assert (Hi : iwrite self text o = (write self (_ind o) ;; write self text) o).
  { rewrite write_then_write. reflexivity. }
  split; [exact Hi|]. split; [exact Hi|]. split.
  - rewrite iwrite_eq. now rewrite str_app_nil_r.
  - intros Hne.
    assert (Hl : lwrite self text o = (iwrite self text ;; write self nl) o).
    { rewrite (lwrite_text self text o Hne).
      unfold bind at 1. rewrite iwrite_eq.
      pose proof (write_then_write self (_ind o ++ text) nl o) as H.
      unfold bind in H. rewrite H. now rewrite str_app_assoc. }
    split; exact Hl.
Qed.

(** X3.  [lwrite], [write_line] and [newline] end the line: whatever the
    text, the level and the stream position, the column is 0 afterwards and
    the line has grown by one more than the number of newlines in what was
    written before the final newline (by exactly one when the indentation
    and the text hold no newline). *)
Theorem lwrite_ends_line (self : ref) (text : string) (o : CodeOut) :
  _col (after (lwrite self text) o) = 0 /\
  _col (after (write_line self text) o) = 0 /\
  _col (after (newline self) o) = 0 /\
  _line (after (newline self) o) = _line o + 1 /\
  _line o + 1 <= _line (after (lwrite self text) o) /\
  (count_nl (_ind o) = O -> count_nl text = O ->
   _line (after (lwrite self text) o) = _line o + 1).
Proof.
  assert (H : forall t,
             counters (after (lwrite self t) o) =
             (_line o +
                Z.of_nat (count_nl (if str_truthy t then _ind o ++ t else "")) + 1,
              0,
              _off o +
                Z.of_nat (String.length (if str_truthy t then _ind o ++ t else ""))
                + 1)).
  { intros t. unfold after. rewrite lwrite_as_write.
    apply counters_after_line. }
  pose proof (f_equal (fun x => fst (fst x)) (H text)) as Hl.
  pose proof (f_equal (fun x => snd (fst x)) (H text)) as Hc.
  pose proof (f_equal (fun x => fst (fst x)) (H "")) as Hl0.
  pose proof (f_equal (fun x => snd (fst x)) (H "")) as Hc0.
  cbn [fst snd counters] in Hl, Hc, Hl0, Hc0.
  unfold write_line, newline. rewrite Hl, Hc, Hl0, Hc0.
  cbn [str_truthy count_nl].
  repeat split; try lia.
  intros Hi Hx. destruct (str_truthy text); cbn [count_nl]; [|lia].
  rewrite count_nl_app, Hi, Hx. simpl. lia.
Qed.

(** X4.  [writelines(seq)] returns [None] and leaves the object as one write
    of all the lines would: for each item in order, the indented [str()] of
    the item and a newline, or a bare newline when that [str()] is empty.
    With the stream position at the end the lines are appended; an empty
    sequence changes nothing, and after any other the column is 0. *)
Theorem writelines_as_write (self : ref) (seq : list pyval) (o : CodeOut) :
  outcome (writelines self seq) o = Ok (Value PyNone) /\
  after (writelines self seq) o =
    after (write self (lines_of (_ind o) seq)) o /\
  after (writelines self []) o = o /\
  (at_end o ->
   text_of (after (writelines self seq) o) =
     text_of o ++ lines_of (_ind o) seq) /\
  (seq <> [] -> _col (after (writelines self seq) o) = 0).
Proof.
  assert (Ha : forall q, after (writelines self q) o =
                         after (write self (lines_of (_ind o) q)) o).
  { intros q. unfold after, writelines, bind.
    now rewrite writelines_loop_eq. }
  split; [|split; [apply Ha | split; [|split]]].
  - unfold outcome, writelines, bind. now rewrite writelines_loop_eq.
  - rewrite Ha. unfold after. simpl lines_of. now rewrite write_nothing.
  - intros He. rewrite Ha. apply (text_after_write self _ o He).
  - intros Hne. rewrite Ha.
    assert (Hx : exists x, lines_of (_ind o) seq = x ++ nl).
    { clear Ha. induction seq as [|item rest IH]; [now elim Hne|].
      simpl lines_of. destruct rest as [|item' rest'].
      - simpl lines_of. rewrite str_app_nil_r. unfold line_of.
        destruct (str_truthy (py_str item)).
        + exists (_ind o ++ py_str item). now rewrite str_app_assoc.
        + exists "". reflexivity.
      - destruct IH as [x Hx]; [discriminate|].
        rewrite Hx. exists (line_of (_ind o) item ++ x).
        now rewrite str_app_assoc. }
    destruct Hx as [x Hx]. rewrite Hx.
    pose proof (counters_after_line self x o) as Hc.
    unfold counters in Hc. now injection Hc.
Qed.

(** X5.  [format] applies no indentation: when the formatting yields a text,
    the call is [write] of that text, so with the stream position at the end
    exactly that text is appended, at any level.  When the formatting
    raises, the same exception comes out and the object is untouched. *)
Theorem format_outcomes (self : ref) (fmt : string) (args : list pyval)
    (kwargs : list (string * pyval)) (o : CodeOut) :
  (forall text, str_format fmt args kwargs = Ok text ->
     format self fmt args kwargs o = write self text o /\
     (at_end o ->
      text_of (after (format self fmt args kwargs) o) = text_of o ++ text)) /\
  (forall e, str_format fmt args kwargs = Raise e ->
     format self fmt args kwargs o = (Raise e, o)).
Proof.
  split.
  - intros text Hf.
    assert (Hw : format self fmt args kwargs o = write self text o).
    { unfold format, bind, lift. now rewrite Hf. }
    split; [exact Hw|]. intros He. unfold after. rewrite Hw.
    apply (text_after_write self text o He).
  - intros e Hf. unfold format, bind, lift. now rewrite Hf.
Qed.

(** *** Indentation *)

Lemma relevel_relevel (a b : Z) (o : CodeOut) :
  relevel a (relevel b o) = relevel a o.
Proof. destruct o; reflexivity. Qed.

Lemma relevel_same (o : CodeOut) : cache_ok o -> relevel (_level o) o = o.
Proof.
  unfold cache_ok, relevel. destruct o as [io fn t i lv l c f]; simpl.
  intros H. now rewrite <- H.
Qed.

Lemma unindent_ok (self : ref) (o : CodeOut) :
  1 <= _level o ->
  unindent self o = (Ok (Self self), relevel (_level o - 1) o).
Proof.
  intros H. rewrite unindent_eq.
  destruct (0 <=? _level o - 1) eqn:E; [reflexivity|].
  apply Z.leb_gt in E. lia.
Qed.

Lemma unindent_fails (self : ref) (o : CodeOut) :
  _level o <= 0 ->
  unindent self o = (Raise AssertionError, set_level (_level o - 1) o).
Proof.
  intros H. rewrite unindent_eq.
  destruct (0 <=? _level o - 1) eqn:E; [|reflexivity].
  apply Z.leb_le in E. lia.
Qed.

Lemma times_indent (self : ref) (n : nat) (o : CodeOut) :
  times (S n) (indent self) o =
  (Ok tt, relevel (_level o + Z.of_nat (S n)) o).
Proof.
  revert o; induction n as [|n IH]; intros o.
  - reflexivity.
  - change (times (S (S n)) (indent self) o)
      with (times (S n) (indent self) (relevel (_level o + 1) o)).
    rewrite IH, relevel_relevel. do 2 f_equal.
    change (_level (relevel (_level o + 1) o)) with (_level o + 1). lia.
Qed.

Lemma times_unindent (self : ref) (n : nat) (o : CodeOut) :
  Z.of_nat (S n) <= _level o ->
  times (S n) (unindent self) o =
  (Ok tt, relevel (_level o - Z.of_nat (S n)) o).
Proof.
  revert o; induction n as [|n IH]; intros o Hn.
  - simpl times. unfold bind. rewrite unindent_ok by lia. reflexivity.
  - change (times (S (S n)) (unindent self) o)
      with ((unindent self ;; times (S n) (unindent self)) o).
    unfold bind at 1. rewrite unindent_ok by lia.
    assert (Hl : _level (relevel (_level o - 1) o) = _level o - 1) by reflexivity.
    rewrite IH by (rewrite Hl; lia).
    rewrite relevel_relevel, Hl. do 2 f_equal. lia.
Qed.

Lemma times_unindent_outcome (self : ref) (n : nat) (o : CodeOut) :
  0 <= _level o ->
  outcome (times n (unindent self)) o =
  if Z.of_nat n <=? _level o then Ok tt else Raise AssertionError.
Proof.
  revert o; induction n as [|n IH]; intros o Hl.
  - simpl. destruct (0 <=? _level o) eqn:E; [reflexivity|].
    apply Z.leb_gt in E. lia.
  - unfold outcome in *. simpl times. unfold bind at 1.
    destruct (Z.eq_dec (_level o) 0) as [H0|H0].
    + rewrite unindent_fails by lia. cbn [fst].
      destruct (Z.of_nat (S n) <=? _level o) eqn:E; [|reflexivity].
      apply Z.leb_le in E. lia.
    + rewrite unindent_ok by lia.
      assert (Hl' : _level (relevel (_level o - 1) o) = _level o - 1) by reflexivity.
      rewrite IH by (rewrite Hl'; lia). rewrite Hl'.
      destruct (Z.of_nat n <=? _level o - 1) eqn:E1;
        destruct (Z.of_nat (S n) <=? _level o) eqn:E2; try reflexivity; exfalso;
        [apply Z.leb_le in E1; apply Z.leb_gt in E2
        |apply Z.leb_gt in E1; apply Z.leb_le in E2]; lia.
Qed.

Lemma str_rep_length (s : string) (n : nat) :
  String.length (str_rep s n) = (n * String.length s)%nat.
Proof.
  induction n as [|n IH]; simpl; [reflexivity|].
  now rewrite str_length_app, IH.
Qed.

Lemma str_mul_succ (s : string) (n : Z) :
  0 <= n -> str_mul s (n + 1) = s ++ str_mul s n.
Proof.
  intros Hn. unfold str_mul.
  replace (Z.to_nat (n + 1)) with (S (Z.to_nat n)) by lia. reflexivity.
Qed.

(** X6.  [unindent] raises [AssertionError] exactly when the level is 0 or
    less, and returns the object exactly when the level is 1 or more.  The
    level is decremented in both cases: a call that raises leaves the level
    one lower, below zero, and changes nothing else. *)
Theorem unindent_outcomes (self : ref) (o : CodeOut) :
  (outcome (unindent self) o = Raise AssertionError <-> _level o <= 0) /\
  (outcome (unindent self) o = Ok (Self self) <-> 1 <= _level o) /\
  _level (after (unindent self) o) = _level o - 1 /\
  (_level o <= 0 -> after (unindent self) o = set_level (_level o - 1) o) /\
  (1 <= _level o -> after (unindent self) o = relevel (_level o - 1) o).
Proof.
  unfold outcome, after.
  destruct (Z_le_gt_dec (_level o) 0) as [H|H].
  - rewrite unindent_fails by exact H. simpl.
    repeat split; try reflexivity; try (intros; lia); try discriminate.
  - rewrite unindent_ok by lia. simpl.
    repeat split; try reflexivity; try (intros; lia); try discriminate.
Qed.

(** X7.  Nested indentation is balanced: on a reachable object whose level
    is not negative, [n] calls of [indent] raise the level by [n], and [n]
    calls of [unindent] after them all return and give back the very object
    one started from.  From a level that is not negative, [m] calls of
    [unindent] in a row all return when [m] is at most the level, and raise
    [AssertionError] otherwise. *)
Theorem balanced_indentation (self : ref) (n m : nat) (o : CodeOut) :
  reachable any o ->
  0 <= _level o ->
  (times n (indent self) ;; times n (unindent self)) o = (Ok tt, o) /\
  _level (after (times n (indent self)) o) = _level o + Z.of_nat n /\
  _ind (after (times n (indent self)) o) =
    str_mul (_tab o) (_level o + Z.of_nat n) /\
  outcome (times m (unindent self)) o =
    (if Z.of_nat m <=? _level o then Ok tt else Raise AssertionError).
Proof.
  intros Hr Hl. pose proof (cache_ok_reachable o Hr) as Hc.
  split; [|split; [|split]].
  - destruct n as [|n]; [reflexivity|].
    unfold bind. rewrite times_indent.
    assert (Hl' : _level (relevel (_level o + Z.of_nat (S n)) o) =
                  _level o + Z.of_nat (S n)) by reflexivity.
    rewrite times_unindent by (rewrite Hl'; lia).
    rewrite relevel_relevel, Hl'.
    replace (_level o + Z.of_nat (S n) - Z.of_nat (S n)) with (_level o) by lia.
    now rewrite relevel_same.
  - destruct n as [|n]; [cbv [after times ret snd]; simpl Z.of_nat; lia|].
    unfold after. now rewrite times_indent.
  - destruct n as [|n].
    + cbv [after times ret snd]. simpl Z.of_nat. rewrite Z.add_0_r. exact Hc.
    + unfold after. now rewrite times_indent.
  - now apply times_unindent_outcome.
Qed.

(** X8.  On a reachable object whose level is not negative, the length of
    the cached indentation string is the level times the length of the
    unit, [indent] puts one more unit in front of it, and [unindent], when
    the level is at least 1, takes one off; at a level of 0 or less the
    string is empty. *)
Theorem indentation_string (self : ref) (o : CodeOut) :
  reachable any o ->
  (0 <= _level o ->
   Z.of_nat (String.length (_ind o)) =
     _level o * Z.of_nat (String.length (_tab o)) /\
   _ind (after (indent self) o) = _tab o ++ _ind o) /\
  (1 <= _level o -> _ind o = _tab o ++ _ind (after (unindent self) o)) /\
  (_level o <= 0 -> _ind o = "").
Proof.
  intros Hr. pose proof (cache_ok_reachable o Hr) as Hc. unfold cache_ok in Hc.
  split; [|split].
  - intros Hl. split.
    + rewrite Hc. unfold str_mul. rewrite str_rep_length. nia.
    + rewrite Hc. unfold after. rewrite indent_eq. simpl.
      now apply str_mul_succ.
  - intros Hl. unfold after. rewrite unindent_ok by exact Hl. simpl.
    rewrite Hc. rewrite <- str_mul_succ by lia. f_equal. lia.
  - intros Hl. rewrite Hc. now apply str_mul_nonpos.
Qed.

(** X9.  Assigning to [level] is a jump over as many [indent] or [unindent]
    calls: raising the level by [k >= 1] leaves the object that [k] calls of
    [indent] leave, and lowering it by [k >= 1] to a level that is not
    negative leaves the object that [k] calls of [unindent] leave.  Of two
    assignments in a row only the second shows, and assigning the current
    level to an object whose cached string is up to date changes nothing. *)
Theorem level_setter_jumps (self : ref) (k : nat) (a b : Z) (o : CodeOut) :
  after (level_setter self (_level o + Z.of_nat (S k))) o =
    after (times (S k) (indent self)) o /\
  (Z.of_nat (S k) <= _level o ->
   after (level_setter self (_level o - Z.of_nat (S k))) o =
     after (times (S k) (unindent self)) o) /\
  after (level_setter self a ;; level_setter self b) o =
    after (level_setter self b) o /\
  (cache_ok o -> after (level_setter self (_level o)) o = o).
Proof.
  assert (Hs : forall v o', snd (level_setter self v o') = relevel v o').
  { intros v o'. now rewrite level_setter_eq. }
  unfold after. split; [|split; [|split]].
  - now rewrite Hs, times_indent.
  - intros H. now rewrite Hs, times_unindent.
  - unfold bind. rewrite level_setter_eq, !Hs. apply relevel_relevel.
  - rewrite Hs. apply relevel_same.
Qed.

(** *** What a call touches *)

Lemma iconcat_eq (self : ref) (rhs : pyval) (o : CodeOut) :
  __iconcat__ self rhs o = write self (py_str rhs) o.
Proof.
  unfold __iconcat__, bind. destruct rhs; simpl; now rewrite !write_eq.
Qed.

Lemma after_writelines (self : ref) (seq : list pyval) (o : CodeOut) :
  writelines self seq o =
  (Ok (Value PyNone), after (write self (lines_of (_ind o) seq)) o).
Proof.
  unfold writelines, bind. now rewrite writelines_loop_eq.
Qed.

(** A writing call leaves the object that one [write] of some text leaves;
    the text depends on the call, on the cached indentation string and, for
    [format], on the formatter alone. *)
Lemma writes_as_write (self : ref) (c : call) (o : CodeOut) :
  writes c = true ->
  exists w, after (run self c) o = after (write self w) o.
Proof.
  intros Hw. destruct c; try discriminate Hw; simpl run.
  - now exists text.
  - exists (_ind o ++ text). unfold after. now rewrite iwrite_eq.
  - exists (_ind o ++ text). unfold after, write_indented. now rewrite iwrite_eq.
  - eexists. unfold after. now rewrite lwrite_as_write.
  - eexists. unfold after, write_line. now rewrite lwrite_as_write.
  - eexists. unfold after, newline. now rewrite lwrite_as_write.
  - eexists. unfold after at 1. now rewrite after_writelines.
  - unfold after at 1. unfold format, bind, lift.
    destruct (str_format fmt args kwargs) as [text|e]; simpl.
    + now exists text.
    + exists "". unfold after. now rewrite write_nothing.
  - exists (py_str rhs). unfold after, __iadd__. now rewrite iconcat_eq.
  - exists (py_str rhs). unfold after. now rewrite iconcat_eq.
Qed.

Lemma indentation_after_write (self : ref) (w : string) (o : CodeOut) :
  _fn (after (write self w) o) = _fn o /\
  _tab (after (write self w) o) = _tab o /\
  _level (after (write self w) o) = _level o /\
  _ind (after (write self w) o) = _ind o.
Proof.
  rewrite after_write. destruct (scan w (counters o)) as [[l c] f].
  repeat split.
Qed.

Lemma text_after_other (self : ref) (c : call) (o : CodeOut) :
  writes c = false ->
  text_of (after (run self c) o) = text_of o /\
  counters (after (run self c) o) = counters o.
Proof.
  intros Hw. destruct c; try discriminate Hw; simpl run; unfold after.
  - split; reflexivity.
  - unfold dedent, outdent. rewrite unindent_eq.
    destruct (0 <=? _level o - 1); split; reflexivity.
  - unfold dedent. rewrite unindent_eq.
    destruct (0 <=? _level o - 1); split; reflexivity.
  - unfold outdent. rewrite unindent_eq.
    destruct (0 <=? _level o - 1); split; reflexivity.
  - split; reflexivity.
  - split; reflexivity.
  - split; reflexivity.
  - unfold bind. rewrite seek_eq.
    destruct (p <? 0); split; reflexivity.
Qed.

Lemma count_nl_tail_len (s : string) (acc : nat) :
  (count_nl s + tail_len_from acc s <= acc + String.length s)%nat.
Proof.
  revert acc; induction s as [|c s IH]; intros acc; simpl; [lia|].
  destruct (Ascii.eqb c LF).
  - specialize (IH O). lia.
  - specialize (IH (S acc)). lia.
Qed.

Lemma scan_bounds (text : string) (l c f l' c' f' : Z) :
  scan text (l, c, f) = (l', c', f') ->
  0 <= l -> 0 <= c -> l + c <= f ->
  (0 <= l' /\ 0 <= c' /\ l' + c' <= f') /\ l <= l' /\ f <= f'.
Proof.
  rewrite scan_total. intros H Hl Hc Hf. injection H as <- <- <-.
  pose proof (count_nl_tail_len text O) as Ht. fold (tail_len text) in Ht.
  destruct (Nat.eqb (count_nl text) O) eqn:E.
  - apply Nat.eqb_eq in E. rewrite E. simpl Z.of_nat. lia.
  - lia.
Qed.

Lemma counters_sane_write (self : ref) (text : string) (o : CodeOut) :
  counters_sane o -> counters_sane (after (write self text) o).
Proof.
  intros (Hl & Hc & Hf).
  pose proof (counters_after_write self text o) as H. unfold counters in H.
  symmetry in H. apply scan_bounds in H; try assumption. apply H.
Qed.

Lemma counters_sane_unindent (self : ref) (o : CodeOut) :
  counters_sane o -> counters_sane (after (unindent self) o).
Proof.
  unfold after. rewrite unindent_eq.
  destruct (0 <=? _level o - 1); exact (fun H => H).
Qed.

Lemma counters_sane_seek (p : Z) (o : CodeOut) :
  counters_sane o -> counters_sane (after (seek p) o).
Proof.
  unfold after. rewrite seek_eq. destruct (p <? 0); exact (fun H => H).
Qed.

Lemma counters_sane_reachable o : reachable any o -> counters_sane o.
Proof.
  apply (reachable_invariant counters_sane any
           counters_sane_write
           (fun self o' H => H)
           counters_sane_unindent
           (fun value o' H => H)
           (fun self value o' H => H)
           (fun self value o' H => H)
           (fun p o' _ => counters_sane_seek p o')).
  intros fn tab0. unfold counters_sane. simpl. lia.
Qed.

(** X10.  Writing and indenting are independent: a call that writes text
    leaves the file name, the unit, the level and the cached indentation
    string as they were, and every other call (the indentation methods, the
    setters, the inherited [seek]) leaves the accumulated text and the three
    counters as they were, whether it returns or raises. *)
Theorem writes_and_indentation_independent (self : ref) (c : call)
    (o : CodeOut) :
  (writes c = true ->
   _fn (after (run self c) o) = _fn o /\
   _tab (after (run self c) o) = _tab o /\
   _level (after (run self c) o) = _level o /\
   _ind (after (run self c) o) = _ind o) /\
  (writes c = false ->
   text_of (after (run self c) o) = text_of o /\
   counters (after (run self c) o) = counters o).
Proof.
  split.
  - intros Hw. destruct (writes_as_write self c o Hw) as [w ->].
    apply indentation_after_write.
  - apply text_after_other.
Qed.

(** X11.  On every reachable object, the inherited [seek] included, the
    line, the column and the offset are not negative and the line plus the
    column is at most the offset.  From such an object no call lowers the
    line or the offset. *)
Theorem counters_bounds (self : ref) (c : call) (o : CodeOut) :
  reachable any o ->
  (0 <= _line o /\ 0 <= _col o /\ _line o + _col o <= _off o) /\
  _line o <= _line (after (run self c) o) /\
  _off o <= _off (after (run self c) o).
Proof.
  intros Hr. pose proof (counters_sane_reachable o Hr) as Hs.
  split; [exact Hs|]. destruct Hs as (Hl & Hc & Hf).
  destruct (writes c) eqn:Hw.
  - destruct (writes_as_write self c o Hw) as [w ->].
    pose proof (counters_after_write self w o) as H. unfold counters in H.
    symmetry in H. apply scan_bounds in H; try assumption. lia.
  - destruct (text_after_other self c o Hw) as [_ H].
    unfold counters in H. injection H as -> _ ->. lia.
Qed.

(** X12.  On an object used only through the calls the class defines, the
    inherited [tell()] agrees with [offset]: both are the length of
    [contents].  The inherited [seek(p)] with [p >= 0] moves [tell()] to [p]
    and leaves [offset] and [contents] alone; with [p < 0] it raises
    [ValueError] and changes nothing. *)
Theorem tell_is_offset (p : Z) (o : CodeOut) :
  (reachable own o ->
   outcome tell o = outcome offset o /\
   outcome tell o = Ok (Z.of_nat (String.length (text_of o)))) /\
  (0 <= p ->
   outcome (seek p ;; tell) o = Ok p /\
   outcome offset (after (seek p) o) = outcome offset o /\
   text_of (after (seek p) o) = text_of o) /\
  (p < 0 -> seek p o = (Raise ValueError, o)).
Proof.
  split; [|split].
  - intros Hr. destruct (synced_reachable o Hr) as [He (Hf & _)].
    unfold at_end in He. unfold outcome, tell, offset, bind, attr, ret; simpl.
    unfold StringIO.tell. rewrite He, Hf. split; reflexivity.
  - intros Hp. unfold outcome, after, bind. rewrite seek_eq.
    destruct (p <? 0) eqn:E; [apply Z.ltb_lt in E; lia|].
    simpl. unfold tell, bind, attr, ret, StringIO.tell; simpl.
    repeat split. f_equal. lia.
  - intros Hp. rewrite seek_eq.
    destruct (p <? 0) eqn:E; [reflexivity | apply Z.ltb_ge in E; lia].
Qed.

(** *** The file name *)

Lemma write_set_fn (self : ref) (w value : string) (o : CodeOut) :
  write self w (set_fn value o) =
  (Ok (Self self), set_fn value (after (write self w) o)).
Proof.
  rewrite write_eq, after_write.
  change (counters (set_fn value o)) with (counters o).
  destruct (scan w (counters o)) as [[l c] f]. reflexivity.
Qed.

Lemma unindent_set_fn (self : ref) (value : string) (o : CodeOut) :
  unindent self (set_fn value o) =
  (outcome (unindent self) o, set_fn value (after (unindent self) o)).
Proof.
  unfold outcome, after. rewrite !unindent_eq.
  change (_level (set_fn value o)) with (_level o).
  destruct (0 <=? _level o - 1); reflexivity.
Qed.

(** X13.  The file name has no effect on anything else: a call other than
    the [filename] setter returns or raises the same, and leaves the same
    object, whether the name was set before the call or is set after it;
    such a call does not change the name.  The getter yields what the setter
    stored last. *)
Theorem filename_is_inert (self : ref) (c : call) (value : string)
    (o : CodeOut) :
  (sets_filename c = false ->
   run self c (set_fn value o) =
     (outcome (run self c) o, set_fn value (after (run self c) o)) /\
   _fn (after (run self c) o) = _fn o) /\
  after (filename_setter value) o = set_fn value o /\
  outcome filename (after (filename_setter value) o) = Ok value.
Proof.
  split; [|split; reflexivity].
  intros Hs.
  assert (Hw : forall w, write self w (set_fn value o) =
                 (outcome (write self w) o,
                  set_fn value (after (write self w) o))).
  { intros w. rewrite write_set_fn. unfold outcome. now rewrite write_eq. }
  assert (Hl : forall t, lwrite self t (set_fn value o) =
                 (outcome (lwrite self t) o,
                  set_fn value (after (lwrite self t) o))).
  { intros t. unfold outcome, after. rewrite !lwrite_as_write. apply Hw. }
  assert (Hi : forall t, iwrite self t (set_fn value o) =
                 (outcome (iwrite self t) o,
                  set_fn value (after (iwrite self t) o))).
  { intros t. unfold outcome, after. rewrite !iwrite_eq. apply Hw. }
  assert (Hc : forall rhs, __iconcat__ self rhs (set_fn value o) =
                 (outcome (__iconcat__ self rhs) o,
                  set_fn value (after (__iconcat__ self rhs) o))).
  { intros rhs. unfold outcome, after. rewrite !iconcat_eq. apply Hw. }
  split.
  - destruct c; try discriminate Hs; simpl run;
      try apply Hw; try apply Hi; try apply Hl; try apply Hc;
      try apply unindent_set_fn; try reflexivity.
    + unfold outcome, after. rewrite !after_writelines.
      change (_ind (set_fn value o)) with (_ind o).
      unfold after. now rewrite write_set_fn.
    + unfold outcome, after, format, bind, lift.
      destruct (str_format fmt args kwargs) as [text|e]; simpl; [|reflexivity].
      apply Hw.
    + unfold outcome, after, bind. rewrite !seek_eq.
      destruct (p <? 0); reflexivity.
  - destruct (writes c) eqn:Ew.
    + destruct (writes_as_write self c o Ew) as [w ->].
      apply indentation_after_write.
    + destruct c; try discriminate Hs; try discriminate Ew; simpl run;
        unfold after, dedent, outdent; try reflexivity;
        try (rewrite unindent_eq; destruct (0 <=? _level o - 1); reflexivity).
      unfold bind. rewrite seek_eq. destruct (p <? 0); reflexivity.
Qed.

(** *** Construction *)

(** X14.  The constructor writes the seed text through [write]: the object
    it yields is the object constructed without seed after [write(init)].
    So [contents] is the seed, with no indentation in front, the counters
    are those of a scan of the seed from zero, the level is 0, the cached
    indentation string is empty, and the unit and the file name are the
    arguments. *)
Theorem constructor_seed (fn init tab0 : string) :
  new fn init tab0 = after (write O init) (new fn "" tab0) /\
  outcome contents (new fn init tab0) = Ok init /\
  counters (new fn init tab0) = scan init (0, 0, 0) /\
  outcome offset (new fn init tab0) = Ok (Z.of_nat (String.length init)) /\
  outcome level (new fn init tab0) = Ok 0 /\
  outcome indentation (new fn init tab0) = Ok "" /\
  outcome tab (new fn init tab0) = Ok tab0 /\
  outcome filename (new fn init tab0) = Ok fn.
Proof.
  assert (Hn : new fn init tab0 = after (write O init) (new fn "" tab0)).
  { rewrite !new_eq. cbv zeta. simpl str_truthy. cbv iota.
    destruct init as [|ch rest]; [|reflexivity].
    simpl str_truthy. cbv iota. unfold after. now rewrite write_nothing. }
  assert (He : at_end (new fn "" tab0)) by reflexivity.
  destruct (text_after_write O init _ He) as [Ht _].
  pose proof (counters_after_write O init (new fn "" tab0)) as Hc.
  destruct (indentation_after_write O init (new fn "" tab0)) as (H1 & H2 & H3 & H4).
  rewrite <- Hn in Ht, Hc, H1, H2, H3, H4.
  split; [exact Hn|]. split; [|split; [|split]].
  - unfold outcome. simpl. fold (text_of (new fn init tab0)). now rewrite Ht.
  - exact Hc.
  - change (counters (new fn "" tab0)) with (0, 0, 0) in Hc.
    rewrite scan_total in Hc. unfold counters in Hc.
    unfold outcome, offset, attr. simpl. injection Hc as _ _ ->. reflexivity.
  - unfold outcome, level, indentation, tab, filename, attr. simpl.
    rewrite H1, H2, H3, H4. repeat split.
Qed.

(** *** Operators *)

Lemma str_get_some (s : string) (n : nat) :
  (n < String.length s)%nat -> exists c, String.get n s = Some c.
Proof.
  revert n; induction s as [|a s IH]; intros n Hn; simpl in Hn; [lia|].
  destruct n as [|n]; simpl; [now exists a|]. apply IH. lia.
Qed.


(** X16.  Indexing with an integer [i] reads [contents]: for
    [0 <= i < len(contents)] both [i] and [i - len(contents)] yield the
    one-character string at position [i]; an index below [-len(contents)]
    or from [len(contents)] on raises [IndexError] (so every index does on an
    empty buffer).  Indexing does not change the object. *)
Theorem getitem_bounds (i : Z) (o : CodeOut) :
  (0 <= i < Z.of_nat (String.length (text_of o)) ->
   exists c,
     String.get (Z.to_nat i) (text_of o) = Some c /\
     outcome (__getitem__ i) o = Ok (String c "") /\
     outcome (__getitem__ (i - Z.of_nat (String.length (text_of o)))) o =
       Ok (String c "")) /\
  (i < - Z.of_nat (String.length (text_of o)) \/
   Z.of_nat (String.length (text_of o)) <= i ->
   outcome (__getitem__ i) o = Raise IndexError) /\
  after (__getitem__ i) o = o.
Proof.
  assert (Hg : forall j, outcome (__getitem__ j) o = str_index (text_of o) j).
  { intros j. unfold outcome, __getitem__, bind, lift. simpl.
    fold (text_of o). destruct (str_index (text_of o) j); reflexivity. }
  split; [|split].
  - intros Hi. set (n := Z.of_nat (String.length (text_of o))) in *.
    destruct (str_get_some (text_of o) (Z.to_nat i)) as [c Hc]; [lia|].
    exists c. split; [exact Hc|]. rewrite !Hg. unfold str_index. fold n.
    split.
    + destruct (i <? 0) eqn:E1; [apply Z.ltb_lt in E1; lia|].
      destruct (0 <=? i) eqn:E2; [|apply Z.leb_gt in E2; lia].
      destruct (i <? n) eqn:E3; [|apply Z.ltb_ge in E3; lia].
      simpl. now rewrite Hc.
    + destruct (i - n <? 0) eqn:E1; [|apply Z.ltb_ge in E1; lia].
      replace (i - n + n) with i by lia.
      destruct (0 <=? i) eqn:E2; [|apply Z.leb_gt in E2; lia].
      destruct (i <? n) eqn:E3; [|apply Z.ltb_ge in E3; lia].
      simpl. now rewrite Hc.
  - intros Hi. rewrite Hg. unfold str_index.
    set (n := Z.of_nat (String.length (text_of o))) in *.
    destruct (i <? 0) eqn:E1.
    + apply Z.ltb_lt in E1.
      destruct (0 <=? i + n) eqn:E2; [apply Z.leb_le in E2; lia|]. reflexivity.
    + apply Z.ltb_ge in E1.
      destruct (i <? n) eqn:E3; [apply Z.ltb_lt in E3; lia|].
      now rewrite andb_false_r.
  - unfold after, __getitem__, bind, lift. simpl.
    destruct (str_index _ i); reflexivity.
Qed.

(** X17.  A setter takes effect on the next line: with the stream position
    at the end, a line written right after assigning the unit [u] is
    indented by [u] times the level, and a line written right after
    assigning the level [v] by the unit times [v] (not at all when
    [v <= 0]); the text accumulated before is kept as it was. *)
Theorem setters_affect_next_line (self : ref) (u text : string) (v : Z)
    (o : CodeOut) :
  text <> "" ->
  at_end o ->
  text_of (after (tab_setter self u ;; lwrite self text) o) =
    text_of o ++ str_mul u (_level o) ++ text ++ nl /\
  text_of (after (level_setter self v ;; lwrite self text) o) =
    text_of o ++ str_mul (_tab o) v ++ text ++ nl /\
  (v <= 0 ->
   text_of (after (level_setter self v ;; lwrite self text) o) =
     text_of o ++ text ++ nl).
Proof.
  intros Hne He.
  assert (Ht : text_of (after (tab_setter self u ;; lwrite self text) o) =
               text_of o ++ str_mul u (_level o) ++ text ++ nl).
  { unfold after, bind. rewrite tab_setter_eq.
    rewrite (lwrite_text self text _ Hne).
    set (o1 := set_ind (str_mul u (_level o)) (set_tab u o)).
    assert (He1 : at_end o1) by exact He.
    destruct (text_after_write self (_ind o1 ++ text ++ nl) o1 He1) as [H _].
    exact H. }
  assert (Hv : text_of (after (level_setter self v ;; lwrite self text) o) =
               text_of o ++ str_mul (_tab o) v ++ text ++ nl).
  { unfold after, bind. rewrite level_setter_eq.
    rewrite (lwrite_text self text _ Hne).
    set (o1 := set_ind (str_mul (_tab o) v) (set_level v o)).
    assert (He1 : at_end o1) by exact He.
    destruct (text_after_write self (_ind o1 ++ text ++ nl) o1 He1) as [H _].
    exact H. }
  split; [exact Ht|]. split; [exact Hv|].
  intros Hv0. rewrite Hv. now rewrite str_mul_nonpos.
Qed.

End Extras.

(** ** The further properties at concrete objects *)

Lemma indented_writes_decompose_witness :
  "x" <> "" /\
  lwrite O "x" (after (indent O) fresh_spaces) =
    (iwrite O "x" ;; write O nl) (after (indent O) fresh_spaces).
Proof.
  assert (H : "x" <> "") by discriminate.
  split; [exact H|].
  destruct (indented_writes_decompose O "x" (after (indent O) fresh_spaces))
    as (_ & _ & _ & Hl).
  exact (proj1 (Hl H)).
Defined.

Lemma lwrite_ends_line_witness :
  count_nl (_ind (after (indent O) fresh_spaces)) = O /\
  count_nl "x" = O /\
  _line (after (lwrite O "x") (after (indent O) fresh_spaces)) = 1.
Proof.
  destruct (lwrite_ends_line O "x" (after (indent O) fresh_spaces))
    as (_ & _ & _ & _ & _ & H).
  split; [reflexivity|]. split; [reflexivity|].
  exact (H eq_refl eq_refl).
Defined.

(** [CodeOut().writelines(['a', 'b', 'c'])] *)
Lemma writelines_as_write_witness :
  at_end fresh /\
  [PyStr "a"; PyStr "b"; PyStr "c"] <> [] /\
  text_of (after (writelines O [PyStr "a"; PyStr "b"; PyStr "c"]) fresh) =
    "a" ++ nl ++ "b" ++ nl ++ "c" ++ nl /\
  _col (after (writelines O [PyStr "a"; PyStr "b"; PyStr "c"]) fresh) = 0.
Proof.
  destruct (writelines_as_write O [PyStr "a"; PyStr "b"; PyStr "c"] fresh)
    as (_ & _ & _ & Ht & Hc).
  assert (Hne : [PyStr "a"; PyStr "b"; PyStr "c"] <> []) by discriminate.
  split; [reflexivity|]. split; [exact Hne|].
  split; [exact (Ht eq_refl) | exact (Hc Hne)].
Defined.

(** ['{}'.format(7)] is written as it is at level 1; ['{}'.format()] raises
    and nothing is written. *)
Lemma format_outcomes_witness :
  str_format (Formatter := brace_format) "{}" [PyInt 7] [] = Ok "7" /\
  str_format (Formatter := brace_format) "{}" [] [] = Raise IndexError /\
  at_end (after (indent O) fresh_spaces) /\
  text_of (after (format (host_format := brace_format) O "{}" [PyInt 7] [])
             (after (indent O) fresh_spaces)) = "7" /\
  format (host_format := brace_format) O "{}" [] []
    (after (indent O) fresh_spaces) =
    (Raise IndexError, after (indent O) fresh_spaces).
Proof.
  destruct (format_outcomes (host_format := brace_format) O "{}" [PyInt 7] []
              (after (indent O) fresh_spaces)) as [Hok _].
  destruct (format_outcomes (host_format := brace_format) O "{}" [] []
              (after (indent O) fresh_spaces)) as [_ Hraise].
  destruct (Hok "7" eq_refl) as [_ Ht].
  split; [reflexivity|]. split; [reflexivity|]. split; [reflexivity|].
  split; [exact (Ht eq_refl) | exact (Hraise IndexError eq_refl)].
Defined.

Lemma unindent_outcomes_witness :
  _level fresh <= 0 /\
  outcome (unindent O) fresh = Raise AssertionError /\
  after (unindent O) fresh = set_level (-1) fresh /\
  1 <= _level (after (indent O) fresh) /\
  outcome (unindent O) (after (indent O) fresh) = Ok (Self O) /\
  after (unindent O) (after (indent O) fresh) = relevel 0 fresh.
Proof.
  destruct (unindent_outcomes O fresh) as ([_ Hr] & _ & _ & Hf & _).
  destruct (unindent_outcomes O (after (indent O) fresh))
    as (_ & [_ Hk] & _ & _ & Hs).
  assert (H0 : _level fresh <= 0) by discriminate.
  assert (H1 : 1 <= _level (after (indent O) fresh)) by discriminate.
  split; [exact H0|]. split; [exact (Hr H0)|]. split; [exact (Hf H0)|].
  split; [exact H1|]. split; [exact (Hk H1) | exact (Hs H1)].
Defined.

Lemma balanced_indentation_witness :
  reachable (host_format := literal_format) any fresh_spaces /\
  0 <= _level fresh_spaces /\
  (times 3 (indent O) ;; times 3 (unindent O)) fresh_spaces =
    (Ok tt, fresh_spaces) /\
  _ind (after (times 3 (indent O)) fresh_spaces) = "      " /\
  outcome (times 1 (unindent O)) fresh_spaces = Raise AssertionError.
Proof.
  assert (Hr : reachable (host_format := literal_format) any fresh_spaces)
    by apply reach_new.
  assert (Hl : 0 <= _level fresh_spaces) by discriminate.
  destruct (balanced_indentation (host_format := literal_format)
              O 3 1 fresh_spaces Hr Hl) as (Hb & _ & Hi & Hu).
  split; [exact Hr|]. split; [exact Hl|]. split; [exact Hb|].
  split; [exact Hi | exact Hu].
Defined.

Lemma indentation_string_witness :
  let o := after (run (host_format := literal_format) O c_indent) fresh_spaces in
  reachable (host_format := literal_format) any o /\
  0 <= _level o /\ 1 <= _level o /\
  Z.of_nat (String.length (_ind o)) = 2 /\
  _ind (after (indent O) o) = "    " /\
  _ind (after (unindent O) o) = "" /\
  _level fresh_spaces <= 0 /\ _ind fresh_spaces = "".
Proof.
  cbv zeta.
  assert (Hr : reachable (host_format := literal_format) any
                 (after (run (host_format := literal_format) O c_indent)
                    fresh_spaces)).
  { apply reach_call; [apply reach_new | reflexivity]. }
  assert (Hr0 : reachable (host_format := literal_format) any fresh_spaces)
    by apply reach_new.
  destruct (indentation_string (host_format := literal_format) O _ Hr)
    as (Hp & Hu & _).
  destruct (indentation_string (host_format := literal_format) O _ Hr0)
    as (_ & _ & Hz).
  assert (H0 : 0 <= _level (after (run (host_format := literal_format) O c_indent)
                              fresh_spaces)) by discriminate.
  assert (H1 : 1 <= _level (after (run (host_format := literal_format) O c_indent)
                              fresh_spaces)) by discriminate.
  assert (Hz0 : _level fresh_spaces <= 0) by discriminate.
  destruct (Hp H0) as [Hlen Hind].
  split; [exact Hr|]. split; [exact H0|]. split; [exact H1|].
  split; [exact Hlen|]. split; [exact Hind|]. split; [reflexivity|].
  split; [exact Hz0 | exact (Hz Hz0)].
Defined.

Lemma level_setter_jumps_witness :
  Z.of_nat 1 <= _level (relevel 2 fresh_spaces) /\
  cache_ok (relevel 2 fresh_spaces) /\
  after (level_setter O 1) (relevel 2 fresh_spaces) =
    after (times 1 (unindent O)) (relevel 2 fresh_spaces) /\
  after (level_setter O 2) (relevel 2 fresh_spaces) = relevel 2 fresh_spaces.
Proof.
  destruct (level_setter_jumps O 0 0 0 (relevel 2 fresh_spaces))
    as (_ & Hd & _ & Hs).
  assert (H1 : Z.of_nat 1 <= _level (relevel 2 fresh_spaces)) by discriminate.
  assert (Hc : cache_ok (relevel 2 fresh_spaces)) by reflexivity.
  split; [exact H1|]. split; [exact Hc|].
  split; [exact (Hd H1) | exact (Hs Hc)].
Defined.

Lemma writes_and_indentation_independent_witness :
  let o := after (indent O) fresh_spaces in
  writes (c_lwrite "x") = true /\
  _ind (after (run (host_format := literal_format) O (c_lwrite "x")) o) = "  " /\
  writes c_unindent = false /\
  outcome (run (host_format := literal_format) O c_unindent) fresh =
    Raise AssertionError /\
  counters (after (run (host_format := literal_format) O c_unindent) fresh) =
    counters fresh.
Proof.
  cbv zeta.
  destruct (writes_and_indentation_independent (host_format := literal_format)
              O (c_lwrite "x") (after (indent O) fresh_spaces)) as [Hw _].
  destruct (writes_and_indentation_independent (host_format := literal_format)
              O c_unindent fresh) as [_ Hn].
  destruct (Hw eq_refl) as (_ & _ & _ & Hi).
  destruct (Hn eq_refl) as [_ Hc].
  split; [reflexivity|]. split; [exact Hi|]. split; [reflexivity|].
  split; [reflexivity | exact Hc].
Defined.

(** [co = CodeOut(); co.write('ab'); co.seek(0); co.write('c')] *)
Lemma counters_bounds_witness :
  let o := after (run (host_format := literal_format) O (c_seek 0))
             (after (run (host_format := literal_format) O (c_write "ab"))
                fresh) in
  reachable (host_format := literal_format) any o /\
  _off o <= _off (after (run (host_format := literal_format) O (c_write "c")) o) /\
  _line o + _col o <= _off o.
Proof.
  cbv zeta.
  assert (Hr : reachable (host_format := literal_format) any
                 (after (run (host_format := literal_format) O (c_seek 0))
                    (after (run (host_format := literal_format) O (c_write "ab"))
                       fresh))).
  { apply reach_call; [apply reach_call; [apply reach_new|]|]; reflexivity. }
  destruct (counters_bounds (host_format := literal_format) O (c_write "c") _ Hr)
    as ((_ & _ & Hs) & _ & Hf).
  split; [exact Hr|]. split; [exact Hf | exact Hs].
Defined.

Lemma tell_is_offset_witness :
  let o := after (run (host_format := literal_format) O (c_lwrite "ab")) fresh in
  reachable (host_format := literal_format) own o /\
  outcome tell o = Ok 3 /\
  0 <= 1 /\ outcome (seek 1 ;; tell) o = Ok 1 /\
  -1 < 0 /\ seek (-1) o = (Raise ValueError, o).
Proof.
  cbv zeta.
  assert (Hr : reachable (host_format := literal_format) own
                 (after (run (host_format := literal_format) O (c_lwrite "ab"))
                    fresh)).
  { apply reach_call; [apply reach_new | reflexivity]. }
  destruct (tell_is_offset (host_format := literal_format) 1
              (after (run (host_format := literal_format) O (c_lwrite "ab")) fresh))
    as (Ht & Hp & _).
  destruct (tell_is_offset (host_format := literal_format) (-1)
              (after (run (host_format := literal_format) O (c_lwrite "ab")) fresh))
    as (_ & _ & Hn).
  assert (H1 : 0 <= 1) by discriminate.
  assert (Hm : -1 < 0) by reflexivity.
  split; [exact Hr|]. split; [exact (proj2 (Ht Hr))|].
  split; [exact H1|]. split; [exact (proj1 (Hp H1))|].
  split; [exact Hm | exact (Hn Hm)].
Defined.

Lemma filename_is_inert_witness :
  sets_filename (c_lwrite "x") = false /\
  run (host_format := literal_format) O (c_lwrite "x") (set_fn "out.c" fresh) =
    (Ok (Self O),
     set_fn "out.c"
       (after (run (host_format := literal_format) O (c_lwrite "x")) fresh)).
Proof.
  destruct (filename_is_inert (host_format := literal_format)
              O (c_lwrite "x") "out.c" fresh) as [H _].
  split; [reflexivity|]. exact (proj1 (H eq_refl)).
Defined.


(** [co = CodeOut(); co.write('ab')]: [co[1]] and [co[-1]] are ['b'],
    [co[2]] raises. *)
Lemma getitem_bounds_witness :
  let o := after (write O "ab") fresh in
  0 <= 1 < Z.of_nat (String.length (text_of o)) /\
  outcome (__getitem__ 1) o = Ok "b" /\
  outcome (__getitem__ (-1)) o = Ok "b" /\
  Z.of_nat (String.length (text_of o)) <= 2 /\
  outcome (__getitem__ 2) o = Raise IndexError.
Proof.
  cbv zeta.
  destruct (getitem_bounds 1 (after (write O "ab") fresh)) as (Hin & _ & _).
  destruct (getitem_bounds 2 (after (write O "ab") fresh)) as (_ & Hout & _).
  assert (H1 : 0 <= 1 < Z.of_nat (String.length (text_of (after (write O "ab") fresh)))).
  { split; [discriminate | reflexivity]. }
  assert (H2 : Z.of_nat (String.length (text_of (after (write O "ab") fresh))) <= 2).
  { discriminate. }
  destruct (Hin H1) as (c & Hc & Hp & Hm).
  assert (Hb : c = "b"%char) by (injection Hc as <-; reflexivity).
  rewrite Hb in Hp, Hm.
  split; [exact H1|]. split; [exact Hp|]. split; [exact Hm|].
  split; [exact H2|]. exact (Hout (or_intror H2)).
Defined.

Lemma setters_affect_next_line_witness :
  "x" <> "" /\
  at_end (after (indent O) fresh) /\
  text_of (after (tab_setter O "  " ;; lwrite O "x") (after (indent O) fresh)) =
    "  x" ++ nl /\
  text_of (after (level_setter O 2 ;; lwrite O "x") (after (indent O) fresh)) =
    tab_char ++ tab_char ++ "x" ++ nl /\
  -1 <= 0 /\
  text_of (after (level_setter O (-1) ;; lwrite O "x") (after (indent O) fresh)) =
    "x" ++ nl.
Proof.
  assert (Hx : "x" <> "") by discriminate.
  assert (He : at_end (after (indent O) fresh)) by reflexivity.
  assert (Hm : -1 <= 0) by discriminate.
  destruct (setters_affect_next_line O "  " "x" 2 (after (indent O) fresh) Hx He)
    as (Ht & Hv & _).
  destruct (setters_affect_next_line O "  " "x" (-1) (after (indent O) fresh) Hx He)
    as (_ & _ & Hn).
  split; [exact Hx|]. split; [exact He|]. split; [exact Ht|].
  split; [exact Hv|]. split; [exact Hm | exact (Hn Hm)].
Defined.
